(** * BIP371 Taproot fields of a PSBT: a shallow embedding of
    [ts_src/psbt/bip371.ts] and the properties of its tree codec, field
    checks and tapscript finalizer. *)

From Stdlib Require Import ZArith List Bool Lia String.
From Stdlib Require Import Strings.Byte.
From Stdlib Require Import Permutation Sorted.
Import ListNotations.
Open Scope Z_scope.

(** ** Values *)

(** A [Uint8Array]. *)
Definition Uint8Array := list byte.

(** The messages the module throws, one constructor per [new Error(...)];
    the names are the error kinds of the specification. *)
Inductive error : Type :=
| NotATree                       (* 'Cannot convert taptree to tapleaf list. Expecting a tapree structure.' *)
| DepthExceeded                  (* 'Max taptree depth exceeded.' *)
| MalformedTapTree               (* 'No room left to insert tapleaf in tree' *)
| MixedFieldsError (action : string) (* 'Invalid arguments for Psbt.${action}. Cannot use both taproot and non-taproot fields.' *)
| LeafNotInTree (action : string)    (* 'Invalid arguments for Psbt.${action}. Tapleaf not part of taptree.' *)
| ScriptMismatch                 (* 'Error adding output. Script or address mismatch.' *)
| NoScriptSignature (inputIndex : Z) (* 'Can not finalize taproot input #${inputIndex}. No tapleaf script signature provided.' *)
| NoMatchingLeaf (inputIndex : Z)    (* 'Can not finalize taproot input #${inputIndex}. Signature for tapleaf script not found.' *)
| FinalizeError (inputIndex : Z) (cause : error) (* 'Can not finalize taproot input #${inputIndex}: ${err}' *)
| ExternalError (msg : string).  (* whatever an imported primitive throws *)

(** A call either returns or throws. *)
Inductive result (A : Type) : Type :=
| Ok (a : A)
| Throw (e : error).
Arguments Ok {A} a.
Arguments Throw {A} e.

Definition bind {A B : Type} (r : result A) (k : A -> result B) : result B :=
  match r with
  | Ok a => k a
  | Throw e => Throw e
  end.

Declare Scope js_scope.
Delimit Scope js_scope with js.
Notation "x <- c1 ;; c2" := (bind c1 (fun x => c2))
  (at level 61, c1 at next level, right associativity) : js_scope.
Notation "c1 ;; c2" := (bind c1 (fun _ => c2))
  (at level 61, right associativity) : js_scope.
Open Scope js_scope.

(** [try { body } catch (err) { throw handler(err) }] *)
Definition try_catch {A : Type} (body : result A) (handler : error -> error) : result A :=
  match body with
  | Ok a => Ok a
  | Throw err => Throw (handler err)
  end.

(** [tools.compare] of uint8array-tools: the first differing byte decides,
    then the lengths. *)
Module tools.
Fixpoint compare (v1 v2 : Uint8Array) : Z :=
  match v1, v2 with
  | [], [] => 0
  | [], _ :: _ => -1
  | _ :: _, [] => 1
  | b1 :: r1, b2 :: r2 =>
      if Byte.eqb b1 b2 then compare r1 r2
      else if (Byte.to_N b1 <? Byte.to_N b2)%N then -1 else 1
  end.
End tools.

(** ** Script trees *)

(** [Tapleaf] of types.ts: [{ output: Uint8Array; version?: number }]. *)
Record Tapleaf : Type := mkTapleaf {
  output : Uint8Array;
  version : option Z
}.

(** [PartialTaptree]: "just like Taptree, but it accepts empty branches".
    A [Taptree] is a [PartialTaptree] without [Undefined]. *)
Inductive PartialTaptree : Type :=
| Undefined
| Leaf (l : Tapleaf)
| Pair (t0 t1 : PartialTaptree).

(** [TapLeaf] of bip174: one entry of the PSBT_OUT_TAP_TREE list. *)
Module TapLeaf.
Record t : Type := mk {
  depth : Z;
  leafVersion : Z;
  script : Uint8Array
}.
End TapLeaf.

(** ** Imported primitives *)

(** What the module imports from payments/bip341.ts, payments/index.ts and
    psbt/psbtutils.ts, none of which is among the sources: the default leaf
    version, the hashes, the script-type test, the payment builder, the script
    parser and the witness encoder. The leaf hash and the script-type test
    are total; the builder, the parser and the encoder may throw, and the path
    hash throws a [TypeError] (here its message, on the left) for a control
    block that is too short to hold a path. *)
Class Primitives : Type := {
  LEAF_VERSION_TAPSCRIPT : Z;
  tapleafHash : Tapleaf -> Uint8Array;
  rootHashFromPath : Uint8Array -> Uint8Array -> string + Uint8Array;
  isP2TR : Uint8Array -> bool;
  (* the [output] of [p2tr({ internalPubkey, scriptTree })] *)
  p2tr : Uint8Array -> PartialTaptree -> result Uint8Array;
  pubkeyPositionInScript : Uint8Array -> Uint8Array -> result Z;
  witnessStackToScriptWitness : list Uint8Array -> result Uint8Array
}.

(** ** The tree codec *)

(** Modelled from the spec: MAX_TAPTREE_DEPTH of payments/bip341.ts, which is
    not among the sources ("max depth = 128"). *)
Definition MAX_TAPTREE_DEPTH : Z := 128.

(** Modelled from the spec: isTapleaf of types.ts, which is not among the
    sources; the shape test of the discriminated union: the value is a script
    leaf (not [undefined], not a pair). *)
Definition isTapleaf (o : PartialTaptree) : bool :=
  match o with
  | Leaf _ => true
  | _ => false
  end.

(** Modelled from the spec: isTaptree of types.ts, which is not among the
    sources; the TapTree shape predicate: a script leaf, or a pair of two
    TapTrees. *)
Fixpoint isTaptree (scriptTree : PartialTaptree) : bool :=
  match scriptTree with
  | Undefined => false
  | Leaf _ => true
  | Pair t0 t1 => isTaptree t0 && isTaptree t1
  end.

(** JavaScript truthiness of a tree value: only [undefined] is falsy. *)
Definition truthy (tree : PartialTaptree) : bool :=
  match tree with
  | Undefined => false
  | _ => true
  end.

(** [tree && tree[0]] and [tree && tree[1]]; indexing a leaf object gives
    [undefined]. *)
Definition sub0 (tree : PartialTaptree) : PartialTaptree :=
  match tree with
  | Pair t0 _ => t0
  | _ => Undefined
  end.

Definition sub1 (tree : PartialTaptree) : PartialTaptree :=
  match tree with
  | Pair _ t1 => t1
  | _ => Undefined
  end.

(** [tree.version || LEAF_VERSION_TAPSCRIPT]: an absent version and the
    version 0 are both falsy. *)
Definition versionOrDefault {prim : Primitives} (v : option Z) : Z :=
  match v with
  | Some n => if n =? 0 then LEAF_VERSION_TAPSCRIPT else n
  | None => LEAF_VERSION_TAPSCRIPT
  end.

(** [_tapTreeToList(tree, leaves, depth)]. The array [leaves] is pushed to in
    place and the recursive calls' return values are dropped, so a call yields
    the value it returns together with the contents of [leaves] after it. *)
Fixpoint _tapTreeToList {prim : Primitives} (tree : PartialTaptree)
  (leaves : list TapLeaf.t) (depth : Z) : result (list TapLeaf.t * list TapLeaf.t) :=
  if depth >? MAX_TAPTREE_DEPTH then Throw DepthExceeded
  else
    match tree with
    | Undefined => Ok ([], leaves)
    | Leaf l =>
        let leaves' :=
          leaves ++ [TapLeaf.mk depth (versionOrDefault (version l)) (output l)] in
        Ok (leaves', leaves')
    | Pair t0 t1 =>
        leaves0 <- (if truthy t0
                    then r <- _tapTreeToList t0 leaves (depth + 1) ;; Ok (snd r)
                    else Ok leaves) ;;
        leaves1 <- (if truthy t1
                    then r <- _tapTreeToList t1 leaves0 (depth + 1) ;; Ok (snd r)
                    else Ok leaves0) ;;
        Ok (leaves1, leaves1)
    end.

(** [tapTreeToList(tree)] *)
Definition tapTreeToList {prim : Primitives} (tree : PartialTaptree)
  : result (list TapLeaf.t) :=
  if negb (isTaptree tree) then Throw NotATree
  else r <- _tapTreeToList tree [] 0 ;; Ok (fst r).

(** [instertLeafInTree(leaf, tree, depth)]. The recursion of the source ends
    because [depth] grows by one per call and is capped; here it is structural
    on [fuel], and [None] means the fuel ran out before the call ended. *)
Fixpoint instertLeafInTree_fuel (fuel : nat) (leaf : TapLeaf.t)
  (tree : PartialTaptree) (depth : Z) : option (result PartialTaptree) :=
  match fuel with
  | O => None
  | S fuel' =>
      if depth >? MAX_TAPTREE_DEPTH then Some (Throw DepthExceeded)
      else if TapLeaf.depth leaf =? depth then
        if negb (truthy tree)
        then Some (Ok (Leaf (mkTapleaf (TapLeaf.script leaf) (Some (TapLeaf.leafVersion leaf)))))
        else Some (Ok Undefined)
      else if isTapleaf tree then Some (Ok Undefined)
      else
        match instertLeafInTree_fuel fuel' leaf (sub0 tree) (depth + 1) with
        | None => None
        | Some (Throw e) => Some (Throw e)
        | Some (Ok leftSide) =>
            if truthy leftSide then Some (Ok (Pair leftSide (sub1 tree)))
            else
              match instertLeafInTree_fuel fuel' leaf (sub1 tree) (depth + 1) with
              | None => None
              | Some (Throw e) => Some (Throw e)
              | Some (Ok rightSide) =>
                  if truthy rightSide then Some (Ok (Pair (sub0 tree) rightSide))
                  else Some (Ok Undefined)
              end
        end
  end.

(** Calls nest at most [MAX_TAPTREE_DEPTH + 2 - depth] deep (see
    [instertLeafInTree_fuel_enough]), so this fuel never runs out. *)
Definition fuelFor (depth : Z) : nat := S (Z.to_nat (MAX_TAPTREE_DEPTH + 1 - depth)).

Definition instertLeafInTree (leaf : TapLeaf.t) (tree : PartialTaptree) (depth : Z)
  : result PartialTaptree :=
  match instertLeafInTree_fuel (fuelFor depth) leaf tree depth with
  | Some r => r
  | None => Throw DepthExceeded
  end.

(** The loop of [instertLeavesInTree], from a given value of [tree]. *)
Fixpoint instertLeavesFrom (tree : PartialTaptree) (leaves : list TapLeaf.t)
  : result PartialTaptree :=
  match leaves with
  | [] => Ok tree
  | leaf :: rest =>
      tree' <- instertLeafInTree leaf tree 0 ;;
      if negb (truthy tree') then Throw MalformedTapTree
      else instertLeavesFrom tree' rest
  end.

(** [instertLeavesInTree(leaves)]: [let tree] starts out [undefined]. *)
Definition instertLeavesInTree (leaves : list TapLeaf.t) : result PartialTaptree :=
  instertLeavesFrom Undefined leaves.

(** [tapTreeFromList(leaves = [])]; [None] is the omitted argument. *)
Definition tapTreeFromList (leaves : option (list TapLeaf.t)) : result PartialTaptree :=
  let leaves := match leaves with Some l => l | None => [] end in
  match leaves with
  | [leaf0] =>
      if TapLeaf.depth leaf0 =? 0
      then Ok (Leaf (mkTapleaf (TapLeaf.script leaf0) (Some (TapLeaf.leafVersion leaf0))))
      else instertLeavesInTree leaves
  | _ => instertLeavesInTree leaves
  end.

(** ** Arrays *)

(** [Array.prototype.map] with a callback that may throw: the first throw,
    from the left, ends the call. *)
Fixpoint mapM {A B : Type} (f : A -> result B) (l : list A) : result (list B) :=
  match l with
  | [] => Ok []
  | x :: rest =>
      y <- f x ;;
      ys <- mapM f rest ;;
      Ok (y :: ys)
  end.

(** [Array.prototype.every] with a callback that may throw: the elements are
    visited from the left, and the first one that throws or gives [false] ends
    the call. *)
Fixpoint every {A : Type} (f : A -> result bool) (l : list A) : result bool :=
  match l with
  | [] => Ok true
  | x :: rest =>
      b <- f x ;;
      if b then every f rest else Ok false
  end.

(** [Array.prototype.sort(compareFn)]. ECMAScript requires the sort to be
    stable, so for a comparator that orders by a numeric key the outcome is
    the one arrangement a stable insertion sort reaches: [x] goes in front of
    the first element it does not tools.compare greater than. *)
Fixpoint insertSorted {A : Type} (compareFn : A -> A -> Z) (x : A) (l : list A) : list A :=
  match l with
  | [] => [x]
  | y :: rest =>
      if compareFn x y <=? 0 then x :: y :: rest
      else y :: insertSorted compareFn x rest
  end.

Definition Array_sort {A : Type} (compareFn : A -> A -> Z) (l : list A) : list A :=
  fold_right (insertSorted compareFn) [] l.

(** [array.length] as a number. *)
Definition lengthZ {A : Type} (l : list A) : Z := Z.of_nat (List.length l).

(** Truthiness of an optional object or [Uint8Array]: present means truthy. *)
Definition present {A : Type} (o : option A) : bool :=
  match o with
  | Some _ => true
  | None => false
  end.

(** Truthiness of [arr && arr.length]. *)
Definition nonEmpty {A : Type} (o : option (list A)) : bool :=
  match o with
  | Some (_ :: _) => true
  | _ => false
  end.

(** [arr || []] *)
Definition orEmpty {A : Type} (o : option (list A)) : list A :=
  match o with
  | Some l => l
  | None => []
  end.

(** ** PSBT fields (bip174) *)

Module TapLeafScript.
Record t : Type := mk {
  leafVersion : Z;
  script : Uint8Array;
  controlBlock : Uint8Array
}.
End TapLeafScript.

Module TapScriptSig.
Record t : Type := mk {
  pubkey : Uint8Array;
  signature : Uint8Array;
  leafHash : Uint8Array
}.
End TapScriptSig.

(** [interface TapScriptSigWitPosition extends TapScriptSig] *)
Module TapScriptSigWitPosition.
Record t : Type := mk {
  positionInScript : Z;
  pubkey : Uint8Array;
  signature : Uint8Array;
  leafHash : Uint8Array
}.
End TapScriptSigWitPosition.

Module Bip32Derivation.
Record t : Type := mk {
  masterFingerprint : Uint8Array;
  pubkey : Uint8Array;
  path : string
}.
End Bip32Derivation.

Module TapBip32Derivation.
Record t : Type := mk {
  masterFingerprint : Uint8Array;
  pubkey : Uint8Array;
  path : string;
  leafHashes : list Uint8Array
}.
End TapBip32Derivation.

Module WitnessUtxo.
Record t : Type := mk {
  script : Uint8Array;
  value : Z
}.
End WitnessUtxo.

Module TapTree.
Record t : Type := mk {
  leaves : list TapLeaf.t
}.
End TapTree.

Module PsbtInput.
Record t : Type := mk {
  tapInternalKey : option Uint8Array;
  tapMerkleRoot : option Uint8Array;
  tapLeafScript : option (list TapLeafScript.t);
  tapBip32Derivation : option (list TapBip32Derivation.t);
  witnessUtxo : option WitnessUtxo.t;
  redeemScript : option Uint8Array;
  witnessScript : option Uint8Array;
  bip32Derivation : option (list Bip32Derivation.t);
  tapKeySig : option Uint8Array;
  tapScriptSig : option (list TapScriptSig.t);
  finalScriptWitness : option Uint8Array
}.

(** The input object after [input.tapLeafScript] was reordered in place. *)
Definition with_tapLeafScript (input : t) (l : option (list TapLeafScript.t)) : t :=
  mk (tapInternalKey input) (tapMerkleRoot input) l (tapBip32Derivation input)
     (witnessUtxo input) (redeemScript input) (witnessScript input)
     (bip32Derivation input) (tapKeySig input) (tapScriptSig input)
     (finalScriptWitness input).
End PsbtInput.

(** The output as the PSBT container hands it over: the bip174 fields and
    the [script] read through [outputData as any]. *)
Module PsbtOutput.
Record t : Type := mk {
  tapInternalKey : option Uint8Array;
  tapTree : option TapTree.t;
  tapBip32Derivation : option (list TapBip32Derivation.t);
  redeemScript : option Uint8Array;
  witnessScript : option Uint8Array;
  bip32Derivation : option (list Bip32Derivation.t);
  script : option Uint8Array
}.
End PsbtOutput.

(** The fields [hasNonTaprootFields] reads from a [PsbtInput | PsbtOutput]. *)
Class PsbtIO (A : Type) : Type := {
  redeemScript : A -> option Uint8Array;
  witnessScript : A -> option Uint8Array;
  bip32Derivation : A -> option (list Bip32Derivation.t)
}.

#[export] Instance PsbtInput_IO : PsbtIO PsbtInput.t := {|
  redeemScript := PsbtInput.redeemScript;
  witnessScript := PsbtInput.witnessScript;
  bip32Derivation := PsbtInput.bip32Derivation
|}.

#[export] Instance PsbtOutput_IO : PsbtIO PsbtOutput.t := {|
  redeemScript := PsbtOutput.redeemScript;
  witnessScript := PsbtOutput.witnessScript;
  bip32Derivation := PsbtOutput.bip32Derivation
|}.

(** Objects are passed by reference: the checks receive references into the
    store of the container's objects, and [===] compares the references. *)
Definition ref : Type := nat.

Definition store (A : Type) : Type := ref -> A.

Definition sameObject (r1 r2 : ref) : bool := Nat.eqb r1 r2.

Section Bip371.
Context {prim : Primitives}.

(** ** Field classifier and invariant checks *)

(** [isTaprootInput(input)] *)
Definition isTaprootInput (input : PsbtInput.t) : bool :=
  present (PsbtInput.tapInternalKey input)
  || present (PsbtInput.tapMerkleRoot input)
  || nonEmpty (PsbtInput.tapLeafScript input)
  || nonEmpty (PsbtInput.tapBip32Derivation input)
  || match PsbtInput.witnessUtxo input with
     | Some utxo => isP2TR (WitnessUtxo.script utxo)
     | None => false
     end.

(** [isTaprootOutput(output, script?)] *)
Definition isTaprootOutput (output : PsbtOutput.t) (script : option Uint8Array) : bool :=
  present (PsbtOutput.tapInternalKey output)
  || present (PsbtOutput.tapTree output)
  || nonEmpty (PsbtOutput.tapBip32Derivation output)
  || match script with
     | Some s => isP2TR s
     | None => false
     end.

(** [hasNonTaprootFields(io)] *)
Definition hasNonTaprootFields {A : Type} `{PsbtIO A} (io : A) : bool :=
  present (redeemScript io)
  || present (witnessScript io)
  || nonEmpty (bip32Derivation io).

(** [checkMixedTaprootAndNonTaprootInputFields(inputData, newInputData, action)] *)
Definition checkMixedTaprootAndNonTaprootInputFields (h : store PsbtInput.t)
  (inputData newInputData : ref) (action : string) : result unit :=
  let isBadTaprootUpdate :=
    isTaprootInput (h inputData) && hasNonTaprootFields (h newInputData) in
  let isBadNonTaprootUpdate :=
    hasNonTaprootFields (h inputData) && isTaprootInput (h newInputData) in
  let hasMixedFields :=
    sameObject inputData newInputData
    && isTaprootInput (h newInputData)
    && hasNonTaprootFields (h newInputData) in
  if isBadTaprootUpdate || isBadNonTaprootUpdate || hasMixedFields
  then Throw (MixedFieldsError action)
  else Ok tt.

(** [checkMixedTaprootAndNonTaprootOutputFields(inputData, newInputData, action)] *)
Definition checkMixedTaprootAndNonTaprootOutputFields (h : store PsbtOutput.t)
  (inputData newInputData : ref) (action : string) : result unit :=
  let isBadTaprootUpdate :=
    isTaprootOutput (h inputData) None && hasNonTaprootFields (h newInputData) in
  let isBadNonTaprootUpdate :=
    hasNonTaprootFields (h inputData) && isTaprootOutput (h newInputData) None in
  let hasMixedFields :=
    sameObject inputData newInputData
    && isTaprootOutput (h newInputData) None
    && hasNonTaprootFields (h newInputData) in
  if isBadTaprootUpdate || isBadNonTaprootUpdate || hasMixedFields
  then Throw (MixedFieldsError action)
  else Ok tt.

(** [isTapLeafInTree(tapLeaf, merkleRoot?)]; what [rootHashFromPath] throws
    is not caught. *)
Definition isTapLeafInTree (tapLeaf : TapLeafScript.t) (merkleRoot : option Uint8Array)
  : result bool :=
  match merkleRoot with
  | None => Ok true
  | Some root =>
      let leafHash :=
        tapleafHash (mkTapleaf (TapLeafScript.script tapLeaf)
                               (Some (TapLeafScript.leafVersion tapLeaf))) in
      match rootHashFromPath (TapLeafScript.controlBlock tapLeaf) leafHash with
      | inl typeError => Throw (ExternalError typeError)
      | inr rootHash => Ok (tools.compare rootHash root =? 0)
      end
  end.

(** [checkIfTapLeafInTree(inputData, newInputData, action)]: both [every]
    calls of the first branch are made before their results are looked at. *)
Definition checkIfTapLeafInTree (inputData newInputData : PsbtInput.t) (action : string)
  : result unit :=
  if present (PsbtInput.tapMerkleRoot newInputData) then
    newLeafsInTree <-
      every (fun l => isTapLeafInTree l (PsbtInput.tapMerkleRoot newInputData))
            (orEmpty (PsbtInput.tapLeafScript newInputData)) ;;
    oldLeafsInTree <-
      every (fun l => isTapLeafInTree l (PsbtInput.tapMerkleRoot newInputData))
            (orEmpty (PsbtInput.tapLeafScript inputData)) ;;
    if negb newLeafsInTree || negb oldLeafsInTree
    then Throw (LeafNotInTree action)
    else Ok tt
  else if present (PsbtInput.tapMerkleRoot inputData) then
    newLeafsInTree <-
      every (fun l => isTapLeafInTree l (PsbtInput.tapMerkleRoot inputData))
            (orEmpty (PsbtInput.tapLeafScript newInputData)) ;;
    if negb newLeafsInTree
    then Throw (LeafNotInTree action)
    else Ok tt
  else Ok tt.

(** [checkTaprootInputFields(inputData, newInputData, action)] *)
Definition checkTaprootInputFields (h : store PsbtInput.t)
  (inputData newInputData : ref) (action : string) : result unit :=
  checkMixedTaprootAndNonTaprootInputFields h inputData newInputData action ;;
  checkIfTapLeafInTree (h inputData) (h newInputData) action.

(** [getTaprootScripPubkey(tapInternalKey, tapTree?)] *)
Definition getTaprootScripPubkey (tapInternalKey : Uint8Array) (tapTree : option TapTree.t)
  : result Uint8Array :=
  scriptTree <- match tapTree with
                | Some tree => tapTreeFromList (Some (TapTree.leaves tree))
                | None => Ok Undefined
                end ;;
  p2tr tapInternalKey scriptTree.

(** [a || b] on optional objects. *)
Definition orElse {A : Type} (a b : option A) : option A :=
  match a with
  | Some _ => a
  | None => b
  end.

(** [checkTaprootScriptPubkey(outputData, newOutputData)] *)
Definition checkTaprootScriptPubkey (outputData newOutputData : PsbtOutput.t) : result unit :=
  if negb (present (PsbtOutput.tapTree newOutputData))
     && negb (present (PsbtOutput.tapInternalKey newOutputData))
  then Ok tt
  else
    let tapInternalKey :=
      orElse (PsbtOutput.tapInternalKey newOutputData) (PsbtOutput.tapInternalKey outputData) in
    let tapTree := orElse (PsbtOutput.tapTree newOutputData) (PsbtOutput.tapTree outputData) in
    match tapInternalKey with
    | Some key =>
        let scriptPubkey := PsbtOutput.script outputData in
        script <- getTaprootScripPubkey key tapTree ;;
        match scriptPubkey with
        | Some spk => if negb (tools.compare script spk =? 0) then Throw ScriptMismatch else Ok tt
        | None => Ok tt
        end
    | None => Ok tt
    end.

(** [checkTaprootOutputFields(outputData, newOutputData, action)] *)
Definition checkTaprootOutputFields (h : store PsbtOutput.t)
  (outputData newOutputData : ref) (action : string) : result unit :=
  checkMixedTaprootAndNonTaprootOutputFields h outputData newOutputData action ;;
  checkTaprootScriptPubkey (h outputData) (h newOutputData).

(** ** Finalizer *)

(** [canFinalizeLeaf(leaf, tapScriptSig, hash?)] *)
Definition canFinalizeLeaf (leaf : TapLeafScript.t) (tapScriptSig : list TapScriptSig.t)
  (hash : option Uint8Array) : bool :=
  let leafHash :=
    tapleafHash (mkTapleaf (TapLeafScript.script leaf) (Some (TapLeafScript.leafVersion leaf))) in
  let whiteListedHash :=
    match hash with
    | None => true
    | Some hsh => tools.compare leafHash hsh =? 0
    end in
  whiteListedHash
  && present (find (fun tss => tools.compare (TapScriptSig.leafHash tss) leafHash =? 0) tapScriptSig).

(** [findTapLeafToFinalize(input, inputIndex, leafHashToFinalize?)].
    [Array.prototype.sort] orders the array it is called on in place and that
    array is [input.tapLeafScript] itself, so the call yields the input object
    as it is afterwards together with what it returns or throws. *)
Definition findTapLeafToFinalize (input : PsbtInput.t) (inputIndex : Z)
  (leafHashToFinalize : option Uint8Array) : PsbtInput.t * result TapLeafScript.t :=
  if negb (nonEmpty (PsbtInput.tapScriptSig input))
  then (input, Throw (NoScriptSignature inputIndex))
  else
    let sorted :=
      Array_sort (fun a b => lengthZ (TapLeafScript.controlBlock a)
                             - lengthZ (TapLeafScript.controlBlock b))
                 (orEmpty (PsbtInput.tapLeafScript input)) in
    let input' :=
      match PsbtInput.tapLeafScript input with
      | Some _ => PsbtInput.with_tapLeafScript input (Some sorted)
      | None => input
      end in
    match find (fun leaf => canFinalizeLeaf leaf (orEmpty (PsbtInput.tapScriptSig input'))
                                            leafHashToFinalize) sorted with
    | Some tapLeaf => (input', Ok tapLeaf)
    | None => (input', Throw (NoMatchingLeaf inputIndex))
    end.

(** [addPubkeyPositionInScript(script, tss)]: [Object.assign] onto a fresh
    object that holds the position. *)
Definition addPubkeyPositionInScript (script : Uint8Array) (tss : TapScriptSig.t)
  : result TapScriptSigWitPosition.t :=
  position <- pubkeyPositionInScript (TapScriptSig.pubkey tss) script ;;
  Ok (TapScriptSigWitPosition.mk position (TapScriptSig.pubkey tss)
        (TapScriptSig.signature tss) (TapScriptSig.leafHash tss)).

(** [sortSignatures(input, tapLeaf)]: [filter] and [map] build new arrays, so
    the [sort] orders a copy and the input is left as it was. *)
Definition sortSignatures (input : PsbtInput.t) (tapLeaf : TapLeafScript.t)
  : result (list Uint8Array) :=
  let leafHash :=
    tapleafHash (mkTapleaf (TapLeafScript.script tapLeaf)
                           (Some (TapLeafScript.leafVersion tapLeaf))) in
  positioned <-
    mapM (addPubkeyPositionInScript (TapLeafScript.script tapLeaf))
         (filter (fun tss => tools.compare (TapScriptSig.leafHash tss) leafHash =? 0)
                 (orEmpty (PsbtInput.tapScriptSig input))) ;;
  Ok (map TapScriptSigWitPosition.signature
          (Array_sort (fun t1 t2 => TapScriptSigWitPosition.positionInScript t2
                                    - TapScriptSigWitPosition.positionInScript t1)
                      positioned)).

(** [tapScriptFinalizer(inputIndex, input, tapLeafHashToFinalize?)]: the input
    object afterwards, and the [finalScriptWitness] or the error. *)
Definition tapScriptFinalizer (inputIndex : Z) (input : PsbtInput.t)
  (tapLeafHashToFinalize : option Uint8Array) : PsbtInput.t * result Uint8Array :=
  match findTapLeafToFinalize input inputIndex tapLeafHashToFinalize with
  | (input', Throw e) => (input', Throw e)
  | (input', Ok tapLeaf) =>
      (input',
       try_catch
         (sigs <- sortSignatures input' tapLeaf ;;
          let witness :=
            (sigs ++ [TapLeafScript.script tapLeaf]) ++ [TapLeafScript.controlBlock tapLeaf] in
          witnessStackToScriptWitness witness)
         (fun err => FinalizeError inputIndex err))
  end.

End Bip371.

(** ** Keys and signatures *)

(** [toXOnly(pubKey)]; [slice(1, 33)] keeps the bytes at the indices 1 to 32. *)
Definition toXOnly (pubKey : Uint8Array) : Uint8Array :=
  if Nat.eqb (List.length pubKey) 32 then pubKey else firstn 32 (skipn 1 pubKey).

(** [Uint8Array.from([n])] stores the number modulo 2^8. *)
Definition toUint8 (n : Z) : byte :=
  match Byte.of_N (Z.to_N (n mod 256)) with
  | Some b => b
  | None => x00
  end.

(** A byte read from a [Uint8Array], as a number. *)
Definition byteValue (b : byte) : Z := Z.of_N (Byte.to_N b).

(** [serializeTaprootSignature(sig, sighashType?)]: an absent sighash type
    and the type 0 are both falsy. *)
Definition serializeTaprootSignature (sig : Uint8Array) (sighashType : option Z)
  : Uint8Array :=
  let sighashTypeByte :=
    match sighashType with
    | Some n => if n =? 0 then [] else [toUint8 n]
    | None => []
    end in
  sig ++ sighashTypeByte.

(** Modelled from the spec: Transaction.SIGHASH_DEFAULT of transaction.ts,
    which is not among the sources ("the protocol's default sentinel (0)"). *)
Definition SIGHASH_DEFAULT : Z := 0.

(** What [decodeSchnorrSignature] returns. *)
Module DecodedSignature.
Record t : Type := mk {
  signature : Uint8Array;
  hashType : Z
}.
End DecodedSignature.

(** [decodeSchnorrSignature(signature)]: [signature.slice(64)[0]] is
    [undefined] past the end, and [undefined] and 0 are both falsy. *)
Definition decodeSchnorrSignature (signature : Uint8Array) : DecodedSignature.t :=
  DecodedSignature.mk
    (firstn 64 signature)
    match skipn 64 signature with
    | [] => SIGHASH_DEFAULT
    | b :: _ => if byteValue b =? 0 then SIGHASH_DEFAULT else byteValue b
    end.

(** [getTapKeySigFromWitness(finalScriptWitness?)] *)
Definition getTapKeySigFromWitness (finalScriptWitness : option Uint8Array)
  : option Uint8Array :=
  match finalScriptWitness with
  | None => None
  | Some fsw =>
      let witness := skipn 2 fsw in
      if Nat.eqb (List.length witness) 64 || Nat.eqb (List.length witness) 65
      then Some witness
      else None
  end.

(** [extractTaprootSigs(input)] *)
Definition extractTaprootSigs (input : PsbtInput.t) : list Uint8Array :=
  let sigs := [] in
  let sigs :=
    match PsbtInput.tapKeySig input with
    | Some tapKeySig => sigs ++ [tapKeySig]
    | None => sigs
    end in
  let sigs :=
    match PsbtInput.tapScriptSig input with
    | Some tapScriptSig => sigs ++ map TapScriptSig.signature tapScriptSig
    | None => sigs
    end in
  if Nat.eqb (List.length sigs) 0 then
    match getTapKeySigFromWitness (PsbtInput.finalScriptWitness input) with
    | Some finalTapKeySig => sigs ++ [finalTapKeySig]
    | None => sigs
    end
  else sigs.

(** [signatureBlocksAction] of psbt/psbtutils.ts, which is not among the
    sources: the policy that says whether a signature, read with the given
    decoder, forbids an action. *)
Class SignaturePolicy : Type := {
  signatureBlocksAction :
    Uint8Array -> (Uint8Array -> DecodedSignature.t) -> string -> bool
}.

(** [checkTaprootInputForSigs(input, action)] *)
Definition checkTaprootInputForSigs {policy : SignaturePolicy} (input : PsbtInput.t)
  (action : string) : bool :=
  let sigs := extractTaprootSigs input in
  existsb (fun sig => signatureBlocksAction sig decodeSchnorrSignature action) sigs.

(** ** Notions the properties are stated with *)

(** The number of levels below the root of a tree value. *)
Fixpoint height (tree : PartialTaptree) : Z :=
  match tree with
  | Pair t0 t1 => Z.max (height t0) (height t1) + 1
  | _ => 0
  end.

(** The leaves of a tree with the depth each one sits at, left before
    right, starting from [depth] at the root. *)
Fixpoint slots (tree : PartialTaptree) (depth : Z) : list (Z * Tapleaf) :=
  match tree with
  | Undefined => []
  | Leaf l => [(depth, l)]
  | Pair t0 t1 => slots t0 (depth + 1) ++ slots t1 (depth + 1)
  end.

(** The list entry that records a leaf found at [depth]. *)
Definition entryOf {prim : Primitives} (slot : Z * Tapleaf) : TapLeaf.t :=
  TapLeaf.mk (fst slot) (versionOrDefault (version (snd slot))) (output (snd slot)).

(** The depth and the leaf that a list entry asks for. *)
Definition slotOf (leaf : TapLeaf.t) : Z * Tapleaf :=
  (TapLeaf.depth leaf, mkTapleaf (TapLeaf.script leaf) (Some (TapLeaf.leafVersion leaf))).

(** The loop of [instertLeavesInTree] run on a subtree that sits at [depth]. *)
Fixpoint insertAllAt (depth : Z) (tree : PartialTaptree) (leaves : list TapLeaf.t)
  : result PartialTaptree :=
  match leaves with
  | [] => Ok tree
  | leaf :: rest =>
      tree' <- instertLeafInTree leaf tree depth ;;
      if negb (truthy tree') then Throw MalformedTapTree
      else insertAllAt depth tree' rest
  end.

(** Every leaf states its version, and none states 0. *)
Fixpoint explicitVersions (tree : PartialTaptree) : Prop :=
  match tree with
  | Undefined => True
  | Leaf l => exists v, version l = Some v /\ v <> 0
  | Pair t0 t1 => explicitVersions t0 /\ explicitVersions t1
  end.

(** The number of leaves of a tree. *)
Fixpoint leafCount (tree : PartialTaptree) : nat :=
  match tree with
  | Undefined => 0
  | Leaf _ => 1
  | Pair t0 t1 => leafCount t0 + leafCount t1
  end.

(** What the field checks read, as propositions over the fields. *)
Definition taprootShaped {prim : Primitives} (input : PsbtInput.t) : Prop :=
  PsbtInput.tapInternalKey input <> None
  \/ PsbtInput.tapMerkleRoot input <> None
  \/ (exists l ls, PsbtInput.tapLeafScript input = Some (l :: ls))
  \/ (exists d ds, PsbtInput.tapBip32Derivation input = Some (d :: ds))
  \/ (exists utxo, PsbtInput.witnessUtxo input = Some utxo
                   /\ isP2TR (WitnessUtxo.script utxo) = true).

Definition legacyShaped (input : PsbtInput.t) : Prop :=
  PsbtInput.redeemScript input <> None
  \/ PsbtInput.witnessScript input <> None
  \/ (exists d ds, PsbtInput.bip32Derivation input = Some (d :: ds)).

(** The Merkle root recomputed from a revealed leaf and its control block,
    or the message of the error thrown instead. *)
Definition rootOf {prim : Primitives} (tapLeaf : TapLeafScript.t) : string + Uint8Array :=
  rootHashFromPath (TapLeafScript.controlBlock tapLeaf)
    (tapleafHash (mkTapleaf (TapLeafScript.script tapLeaf)
                            (Some (TapLeafScript.leafVersion tapLeaf)))).

(** The hash of a revealed leaf. *)
Definition leafHashOf {prim : Primitives} (leaf : TapLeafScript.t) : Uint8Array :=
  tapleafHash (mkTapleaf (TapLeafScript.script leaf) (Some (TapLeafScript.leafVersion leaf))).

(** A leaf can be finalized: it matches the target hash when one is given,
    and some signature was made for it. *)
Definition qualifies {prim : Primitives} (sigs : list TapScriptSig.t)
  (target : option Uint8Array) (leaf : TapLeafScript.t) : Prop :=
  (target = None \/ target = Some (leafHashOf leaf))
  /\ exists tss, In tss sigs /\ TapScriptSig.leafHash tss = leafHashOf leaf.

(** The record that [addPubkeyPositionInScript] builds for a signature whose
    key sits at the position [pos] gives. *)
Definition positioned (pos : TapScriptSig.t -> Z) (tss : TapScriptSig.t)
  : TapScriptSigWitPosition.t :=
  TapScriptSigWitPosition.mk (pos tss) (TapScriptSig.pubkey tss)
    (TapScriptSig.signature tss) (TapScriptSig.leafHash tss).

(** The Taproot scriptPubKey rebuilt from an internal key and an optional
    tree: the payment of the key with the tree of the list, or with no tree. *)
Definition reconstructed {prim : Primitives} (key : Uint8Array) (tapTree : option TapTree.t)
  (script : Uint8Array) : Prop :=
  exists scriptTree,
    match tapTree with
    | Some tree => tapTreeFromList (Some (TapTree.leaves tree)) = Ok scriptTree
    | None => scriptTree = Undefined
    end
    /\ p2tr key scriptTree = Ok script.

(** The mixed-field condition on an old and a new input. *)
Definition mixedFields {prim : Primitives} (h : store PsbtInput.t) (old new : ref) : Prop :=
  (taprootShaped (h old) /\ legacyShaped (h new))
  \/ (legacyShaped (h old) /\ taprootShaped (h new))
  \/ (old = new /\ taprootShaped (h new) /\ legacyShaped (h new)).

(** Every revealed leaf among [leaves] hashes up to [root]. *)
Definition allInTree {prim : Primitives} (leaves : list TapLeafScript.t) (root : Uint8Array)
  : Prop :=
  Forall (fun leaf => rootOf leaf = inr root) leaves.

(** The first of [leaves] that does not hash up to [root] hashes up to
    another root. *)
Definition strayLeaf {prim : Primitives} (leaves : list TapLeafScript.t) (root : Uint8Array)
  : Prop :=
  exists pre leaf post other,
    leaves = pre ++ leaf :: post
    /\ allInTree pre root
    /\ rootOf leaf = inr other
    /\ other <> root.

(** The first of [leaves] that does not hash up to [root] has a control
    block for which the path hash throws, with the message [typeError]. *)
Definition brokenLeaf {prim : Primitives} (leaves : list TapLeafScript.t) (root : Uint8Array)
  (typeError : string) : Prop :=
  exists pre leaf post,
    leaves = pre ++ leaf :: post
    /\ allInTree pre root
    /\ rootOf leaf = inl typeError.

(** Ascending by a numeric key. *)
Definition ascendingBy {A : Type} (key : A -> Z) (a b : A) : Prop := key a <= key b.

(** The byte length of a revealed leaf's control block. *)
Definition pathLength (leaf : TapLeafScript.t) : Z :=
  lengthZ (TapLeafScript.controlBlock leaf).

(** ** Primitives to run the functions with

    Stand-ins with the interface of the imported primitives, for evaluating
    the functions on concrete inputs: the default leaf version is that of
    BIP341 tapscript (0xc0), the leaf hash is the script, a Merkle
    path appends the sibling bytes that follow the 33-byte header of the
    control block and throws when the control block has no such header, a
    Taproot script is OP_1 and a 32-byte push, a payment
    pushes the internal key, a key's position is the index of the script
    byte equal to its first byte (-1 when there is none), and a witness is
    the concatenation of its items. *)
Fixpoint indexOfByte (b : byte) (script : Uint8Array) (i : Z) : Z :=
  match script with
  | [] => -1
  | c :: rest => if Byte.eqb b c then i else indexOfByte b rest (i + 1)
  end.

Definition samplePrimitives : Primitives := {|
  LEAF_VERSION_TAPSCRIPT := 192;
  tapleafHash := fun leaf => output leaf;
  rootHashFromPath := fun controlBlock leafHash =>
    if (List.length controlBlock <? 33)%nat
    then inl "The control-block length is too small."%string
    else inr (leafHash ++ skipn 33 controlBlock);
  isP2TR := fun script =>
    match script with
    | x51 :: x20 :: key => Nat.eqb (List.length key) 32
    | _ => false
    end;
  p2tr := fun internalPubkey scriptTree =>
    if truthy scriptTree && negb (isTaptree scriptTree)
    then Throw (ExternalError "scriptTree")
    else Ok (x51 :: x20 :: internalPubkey);
  pubkeyPositionInScript := fun pubkey script =>
    match pubkey with
    | [] => Throw (ExternalError "pubkey")
    | b :: _ => Ok (indexOfByte b script 0)
    end;
  witnessStackToScriptWitness := fun items => Ok (List.concat items)
|}.

(** ** Concrete values the functions are run on *)

Definition leafNoVersion : PartialTaptree := Leaf (mkTapleaf [x51] None).

Definition leafVersion0 : PartialTaptree := Leaf (mkTapleaf [x51] (Some 0)).

(** A three-leaf TapTree: a leaf beside a pair of leaves. *)
Definition tree3 : PartialTaptree :=
  Pair (Leaf (mkTapleaf [x51] (Some 192)))
       (Pair (Leaf (mkTapleaf [x52] (Some 192))) (Leaf (mkTapleaf [x53] (Some 194)))).

(** A list entry with the tapscript version and a one-byte script. *)
Definition leafAt (depth : Z) : TapLeaf.t := TapLeaf.mk depth 192 [x51].

(** A left comb: [n] pairs down the right side, a leaf at every level. *)
Fixpoint comb (n : nat) : PartialTaptree :=
  match n with
  | O => Leaf (mkTapleaf [x51] (Some 192))
  | S n' => Pair (Leaf (mkTapleaf [x51] (Some 192))) (comb n')
  end.

(** Two revealed leaves, both signed: one with a 65-byte control block (one
    sibling hash) and one with a 33-byte control block (none). *)
Definition leaf65 : TapLeafScript.t :=
  TapLeafScript.mk 192 [x01; xac] (repeat xc0 65).

Definition leaf33 : TapLeafScript.t :=
  TapLeafScript.mk 192 [x02; xac] (repeat xc0 33).

Definition sigFor65 : TapScriptSig.t :=
  TapScriptSig.mk [x01] (repeat x65 64) [x01; xac].

Definition sigFor33 : TapScriptSig.t :=
  TapScriptSig.mk [x02] (repeat x33 64) [x02; xac].

Definition emptyInput : PsbtInput.t :=
  PsbtInput.mk None None None None None None None None None None None.

(** An input that reveals the deeper leaf first. *)
Definition signedInput : PsbtInput.t :=
  PsbtInput.mk None None (Some [leaf65; leaf33]) None None None None None None
               (Some [sigFor65; sigFor33]) None.

(** A leaf script with the keys 0x0a and 0x0b at offsets 1 and 3, and a
    signature for each, the one for the first key listed first. *)
Definition leafTwoKeys : TapLeafScript.t :=
  TapLeafScript.mk 192 [x20; x0a; xac; x0b; xba] (repeat xc0 33).

Definition sigKeyA : TapScriptSig.t :=
  TapScriptSig.mk [x0a] (repeat xaa 64) [x20; x0a; xac; x0b; xba].

Definition sigKeyB : TapScriptSig.t :=
  TapScriptSig.mk [x0b] (repeat xbb 64) [x20; x0a; xac; x0b; xba].

Definition twoKeyInput : PsbtInput.t :=
  PsbtInput.mk None None (Some [leafTwoKeys]) None None None None None None
               (Some [sigKeyA; sigKeyB]) None.

(** Inputs for the field checks: Taproot fields only, legacy fields only,
    both, and an input that commits to the root 0x01 while revealing a leaf
    that hashes to something else. *)
Definition taprootOnlyInput : PsbtInput.t :=
  PsbtInput.mk (Some (repeat x02 32)) None None None None None None None None None None.

Definition legacyOnlyInput : PsbtInput.t :=
  PsbtInput.mk None None None None None (Some [x51]) None None None None None.

Definition mixedInput : PsbtInput.t :=
  PsbtInput.mk (Some (repeat x02 32)) None None None None (Some [x51]) None None None None None.

Definition strayLeafInput : PsbtInput.t :=
  PsbtInput.mk None (Some [x01]) (Some [leaf33]) None None None None None None None None.

Definition rootOnlyInput : PsbtInput.t :=
  PsbtInput.mk None (Some [x01]) None None None None None None None None None.

Definition leafOnlyInput : PsbtInput.t :=
  PsbtInput.mk None None (Some [leaf33]) None None None None None None None None.

(** A revealed leaf whose control block has 10 bytes, an input that reveals
    it before a leaf that does not hash up to the root 0x01, and one that
    reveals it after. *)
Definition leaf10 : TapLeafScript.t :=
  TapLeafScript.mk 192 [x01] (repeat xc0 10).

Definition brokenFirstInput : PsbtInput.t :=
  PsbtInput.mk None None (Some [leaf10; leaf33]) None None None None None None None None.

Definition brokenLastInput : PsbtInput.t :=
  PsbtInput.mk None None (Some [leaf33; leaf10]) None None None None None None None None.

Definition brokenStore : store PsbtInput.t :=
  fun r =>
    match r with
    | 0%nat => rootOnlyInput
    | 1%nat => brokenFirstInput
    | _ => brokenLastInput
    end.

Definition inputStore : store PsbtInput.t :=
  fun r =>
    match r with
    | 0%nat => taprootOnlyInput
    | 1%nat => legacyOnlyInput
    | 2%nat => mixedInput
    | 3%nat => strayLeafInput
    | 4%nat => rootOnlyInput
    | 5%nat => leafOnlyInput
    | _ => emptyInput
    end.

(** Outputs: one that has an internal key and a script that is not the
    Taproot script of that key, an update that carries no Taproot field, and
    an update that carries the key again. *)
Definition emptyOutput : PsbtOutput.t :=
  PsbtOutput.mk None None None None None None None.

Definition keyedOutput : PsbtOutput.t :=
  PsbtOutput.mk (Some (repeat x02 32)) None None None None None (Some [x00]).

Definition keyUpdate : PsbtOutput.t :=
  PsbtOutput.mk (Some (repeat x02 32)) None None None None None None.

Definition outputStore : store PsbtOutput.t :=
  fun r =>
    match r with
    | 0%nat => keyedOutput
    | 1%nat => emptyOutput
    | _ => keyUpdate
    end.

(** ** Further notions and values *)

(** The tree with every leaf stating the version that is written for it to
    the list: its own, or the default when it states none or 0. *)
Fixpoint withDefaultVersions {prim : Primitives} (tree : PartialTaptree) : PartialTaptree :=
  match tree with
  | Undefined => Undefined
  | Leaf l => Leaf (mkTapleaf (output l) (Some (versionOrDefault (version l))))
  | Pair t0 t1 => Pair (withDefaultVersions t0) (withDefaultVersions t1)
  end.

(** What [isTaprootOutput] reads when it is given no script. *)
Definition outputTaprootShaped (output : PsbtOutput.t) : Prop :=
  PsbtOutput.tapInternalKey output <> None
  \/ PsbtOutput.tapTree output <> None
  \/ (exists d ds, PsbtOutput.tapBip32Derivation output = Some (d :: ds)).

Definition outputLegacyShaped (output : PsbtOutput.t) : Prop :=
  PsbtOutput.redeemScript output <> None
  \/ PsbtOutput.witnessScript output <> None
  \/ (exists d ds, PsbtOutput.bip32Derivation output = Some (d :: ds)).

(** The signatures an input carries outside its finalized witness: the
    key-path signature, then the script-path ones. *)
Definition carriedSigs (input : PsbtInput.t) : list Uint8Array :=
  match PsbtInput.tapKeySig input with
  | Some sig => [sig]
  | None => []
  end ++ map TapScriptSig.signature (orEmpty (PsbtInput.tapScriptSig input)).

(** A policy that forbids every action to a signature whose sighash type
    is 1. *)
Definition samplePolicy : SignaturePolicy := {|
  signatureBlocksAction := fun sig decode action =>
    DecodedSignature.hashType (decode sig) =? 1
|}.

(** A list out of depth-first order: the entry for depth 1 stands between
    the two for depth 2. *)
Definition unorderedLeaves : list TapLeaf.t :=
  [TapLeaf.mk 2 192 [x51]; TapLeaf.mk 1 192 [x52]; TapLeaf.mk 2 192 [x53]].

(** An input finalized by a key-path spend: one witness item of 64 bytes. *)
Definition finalizedInput : PsbtInput.t :=
  PsbtInput.mk None None None None None None None None None None
               (Some (x01 :: x40 :: repeat x07 64)).

(** An input with a key-path signature of sighash type 1. *)
Definition keySigInput : PsbtInput.t :=
  PsbtInput.mk None None None None None None None None (Some (repeat x07 64 ++ [x01]))
               None None.

(** An output update whose tree lists two leaves at depth 0. *)
Definition badTreeUpdate : PsbtOutput.t :=
  PsbtOutput.mk (Some (repeat x02 32)) (Some (TapTree.mk [leafAt 0; leafAt 0]))
                None None None None None.

Definition badTreeStore : store PsbtOutput.t :=
  fun r =>
    match r with
    | 0%nat => emptyOutput
    | _ => badTreeUpdate
    end.

(** ** Facts about the tree codec *)

Lemma compare_refl (v : Uint8Array) : tools.compare v v = 0.
Proof.
  induction v as [|b v IH]; simpl; [reflexivity|].
  now rewrite (Byte.byte_dec_lb (eq_refl b)).
Qed.

Lemma compare_eq (v1 v2 : Uint8Array) : tools.compare v1 v2 = 0 -> v1 = v2.
Proof.
  revert v2; induction v1 as [|b1 v1 IH]; intros [|b2 v2]; simpl; try discriminate; auto.
  destruct (Byte.eqb b1 b2) eqn:E.
  - intros H. apply Byte.byte_dec_bl in E. subst. f_equal. now apply IH.
  - destruct (N.ltb _ _); discriminate.
Qed.

Lemma compare_eqb (v1 v2 : Uint8Array) : (tools.compare v1 v2 =? 0) = true <-> v1 = v2.
Proof.
  rewrite Z.eqb_eq. split; [apply compare_eq|]. intros ->. apply compare_refl.
Qed.

Lemma compare_neqb (v1 v2 : Uint8Array) : (tools.compare v1 v2 =? 0) = false <-> v1 <> v2.
Proof.
  rewrite <- compare_eqb. destruct (tools.compare v1 v2 =? 0); split; congruence.
Qed.

(** One more level of fuel is needed per level below the cap. *)
Lemma fuelFor_step (depth : Z) :
  depth <= MAX_TAPTREE_DEPTH -> fuelFor depth = S (fuelFor (depth + 1)).
Proof.
  intros H. unfold fuelFor. f_equal.
  replace (MAX_TAPTREE_DEPTH + 1 - depth) with (Z.succ (MAX_TAPTREE_DEPTH + 1 - (depth + 1))) by lia.
  rewrite Z2Nat.inj_succ by lia. reflexivity.
Qed.

(** The equation of the source's body, without fuel. *)
Lemma instertLeafInTree_unfold (leaf : TapLeaf.t) (tree : PartialTaptree) (depth : Z) :
  instertLeafInTree leaf tree depth =
  if depth >? MAX_TAPTREE_DEPTH then Throw DepthExceeded
  else if TapLeaf.depth leaf =? depth then
    if negb (truthy tree)
    then Ok (Leaf (mkTapleaf (TapLeaf.script leaf) (Some (TapLeaf.leafVersion leaf))))
    else Ok Undefined
  else if isTapleaf tree then Ok Undefined
  else
    leftSide <- instertLeafInTree leaf (sub0 tree) (depth + 1) ;;
    if truthy leftSide then Ok (Pair leftSide (sub1 tree))
    else
      rightSide <- instertLeafInTree leaf (sub1 tree) (depth + 1) ;;
      if truthy rightSide then Ok (Pair (sub0 tree) rightSide) else Ok Undefined.
Proof.
  unfold instertLeafInTree at 1.
  destruct (depth >? MAX_TAPTREE_DEPTH) eqn:Hd.
  - unfold fuelFor. simpl. now rewrite Hd.
  - rewrite fuelFor_step by lia. unfold instertLeafInTree.
    remember (fuelFor (depth + 1)) as n eqn:Hn. clear Hn.
    cbn [instertLeafInTree_fuel]. rewrite Hd.
    destruct (TapLeaf.depth leaf =? depth); [now destruct (negb (truthy tree))|].
    destruct (isTapleaf tree); [reflexivity|].
    destruct (instertLeafInTree_fuel n leaf (sub0 tree) (depth + 1))
      as [[leftSide|e]|]; cbn [bind]; try reflexivity.
    destruct (truthy leftSide); [reflexivity|].
    destruct (instertLeafInTree_fuel n leaf (sub1 tree) (depth + 1))
      as [[rightSide|e]|]; cbn [bind]; try reflexivity.
    now destruct (truthy rightSide).
Qed.

(** Any fuel above the number of levels left gives the call's result: the
    fuel never runs out. *)
Lemma instertLeafInTree_fuel_enough (fuel : nat) :
  forall (leaf : TapLeaf.t) (tree : PartialTaptree) (depth : Z),
    (Z.to_nat (MAX_TAPTREE_DEPTH + 1 - depth) < fuel)%nat ->
    instertLeafInTree_fuel fuel leaf tree depth = Some (instertLeafInTree leaf tree depth).
Proof.
  induction fuel as [|fuel IH]; intros leaf tree depth Hf; [lia|].
  rewrite instertLeafInTree_unfold. cbn [instertLeafInTree_fuel].
  destruct (depth >? MAX_TAPTREE_DEPTH) eqn:Hd; [reflexivity|].
  destruct (TapLeaf.depth leaf =? depth); [now destruct (negb (truthy tree))|].
  destruct (isTapleaf tree); [reflexivity|].
  assert (Hf' : (Z.to_nat (MAX_TAPTREE_DEPTH + 1 - (depth + 1)) < fuel)%nat) by lia.
  rewrite !(IH _ _ _ Hf').
  destruct (instertLeafInTree leaf (sub0 tree) (depth + 1)) as [leftSide|e]; cbn [bind]; [|reflexivity].
  destruct (truthy leftSide); [reflexivity|].
  destruct (instertLeafInTree leaf (sub1 tree) (depth + 1)) as [rightSide|e]; cbn [bind]; [|reflexivity].
  now destruct (truthy rightSide).
Qed.

Arguments instertLeafInTree : simpl never.

Lemma instertLeavesFrom_insertAllAt (leaves : list TapLeaf.t) :
  forall tree, instertLeavesFrom tree leaves = insertAllAt 0 tree leaves.
Proof.
  induction leaves as [|leaf rest IH]; intros tree; simpl; [reflexivity|].
  destruct (instertLeafInTree leaf tree 0) as [tree'|e]; simpl; [|reflexivity].
  destruct (truthy tree'); simpl; [apply IH|reflexivity].
Qed.

(** The single-leaf case of [tapTreeFromList] returns what the loop returns. *)
Lemma tapTreeFromList_loop (leaves : list TapLeaf.t) :
  tapTreeFromList (Some leaves) = instertLeavesInTree leaves.
Proof.
  unfold tapTreeFromList.
  destruct leaves as [|leaf0 [|leaf1 rest]]; try reflexivity.
  destruct (TapLeaf.depth leaf0 =? 0) eqn:E; [|reflexivity].
  unfold instertLeavesInTree. simpl. rewrite instertLeafInTree_unfold.
  rewrite E. reflexivity.
Qed.

Lemma insertAllAt_app (depth : Z) (l1 l2 : list TapLeaf.t) :
  forall tree,
    insertAllAt depth tree (l1 ++ l2) =
    (tree' <- insertAllAt depth tree l1 ;; insertAllAt depth tree' l2).
Proof.
  induction l1 as [|leaf rest IH]; intros tree; simpl; [reflexivity|].
  destruct (instertLeafInTree leaf tree depth) as [tree'|e]; simpl; [|reflexivity].
  destruct (truthy tree'); simpl; [apply IH|reflexivity].
Qed.

Lemma isTaptree_truthy (tree : PartialTaptree) : isTaptree tree = true -> truthy tree = true.
Proof. destruct tree; simpl; congruence. Qed.

Lemma height_nonneg (tree : PartialTaptree) : 0 <= height tree.
Proof. induction tree; simpl; lia. Qed.

Lemma slots_depth (tree : PartialTaptree) :
  forall depth, Forall (fun slot => depth <= fst slot) (slots tree depth).
Proof.
  induction tree as [| l | t0 IH0 t1 IH1]; intros depth; simpl.
  - constructor.
  - constructor; [simpl; lia|constructor].
  - apply Forall_app; split;
      [specialize (IH0 (depth + 1))|specialize (IH1 (depth + 1))];
      (eapply Forall_impl; [|eassumption]); simpl; intros; lia.
Qed.

Lemma slots_nonempty (tree : PartialTaptree) (depth : Z) :
  isTaptree tree = true -> slots tree depth <> [].
Proof.
  revert depth; induction tree as [| l | t0 IH0 t1 IH1]; intros depth H; simpl in *;
    try discriminate.
  apply andb_prop in H as [H0 _]. intros E. apply app_eq_nil in E as [E _].
  now apply (IH0 (depth + 1)).
Qed.

(** [_tapTreeToList] on a TapTree that stays within the cap appends the
    entries of its leaves, left before right. *)
Lemma _tapTreeToList_complete {prim : Primitives} (tree : PartialTaptree) :
  isTaptree tree = true ->
  forall leaves depth,
    depth + height tree <= MAX_TAPTREE_DEPTH ->
    _tapTreeToList tree leaves depth =
    Ok (leaves ++ map entryOf (slots tree depth), leaves ++ map entryOf (slots tree depth)).
Proof.
  induction tree as [| l | t0 IH0 t1 IH1]; intros Ht leaves depth Hh; simpl in *;
    try discriminate.
  - destruct (depth >? MAX_TAPTREE_DEPTH) eqn:Hd; [lia|reflexivity].
  - apply andb_prop in Ht as [Ht0 Ht1].
    pose proof (height_nonneg t0). pose proof (height_nonneg t1).
    destruct (depth >? MAX_TAPTREE_DEPTH) eqn:Hd; [lia|].
    rewrite (isTaptree_truthy _ Ht0), (isTaptree_truthy _ Ht1).
    rewrite (IH0 Ht0) by lia. simpl.
    rewrite (IH1 Ht1) by lia. simpl.
    now rewrite map_app, app_assoc.
Qed.

(** [_tapTreeToList] on a TapTree with a node below the cap throws. *)
Lemma _tapTreeToList_deep {prim : Primitives} (tree : PartialTaptree) :
  isTaptree tree = true ->
  forall leaves depth,
    MAX_TAPTREE_DEPTH < depth + height tree ->
    _tapTreeToList tree leaves depth = Throw DepthExceeded.
Proof.
  induction tree as [| l | t0 IH0 t1 IH1]; intros Ht leaves depth Hh; simpl in *;
    try discriminate.
  - destruct (depth >? MAX_TAPTREE_DEPTH) eqn:Hd; [reflexivity|lia].
  - apply andb_prop in Ht as [Ht0 Ht1].
    destruct (depth >? MAX_TAPTREE_DEPTH) eqn:Hd; [reflexivity|].
    rewrite (isTaptree_truthy _ Ht0), (isTaptree_truthy _ Ht1).
    destruct (Z_lt_le_dec MAX_TAPTREE_DEPTH (depth + 1 + height t0)) as [H0|H0].
    + now rewrite (IH0 Ht0).
    + rewrite (_tapTreeToList_complete _ Ht0) by lia. simpl.
      rewrite (IH1 Ht1) by lia. reflexivity.
Qed.

(** A TapTree within the cap has no room: every insertion is turned down,
    and none throws. *)
Lemma instertLeafInTree_full (leaf : TapLeaf.t) (tree : PartialTaptree) :
  isTaptree tree = true ->
  forall depth,
    depth + height tree <= MAX_TAPTREE_DEPTH ->
    instertLeafInTree leaf tree depth = Ok Undefined.
Proof.
  induction tree as [| l | t0 IH0 t1 IH1]; intros Ht depth Hh; simpl in *;
    try discriminate; rewrite instertLeafInTree_unfold.
  - destruct (depth >? MAX_TAPTREE_DEPTH) eqn:Hd; [lia|].
    now destruct (TapLeaf.depth leaf =? depth).
  - apply andb_prop in Ht as [Ht0 Ht1].
    pose proof (height_nonneg t0). pose proof (height_nonneg t1).
    destruct (depth >? MAX_TAPTREE_DEPTH) eqn:Hd; [lia|].
    destruct (TapLeaf.depth leaf =? depth); [reflexivity|]. simpl.
    rewrite (IH0 Ht0) by lia. simpl.
    rewrite (IH1 Ht1) by lia. reflexivity.
Qed.

(** Leaves that belong below [depth] and fit into the left subtree go
    there. *)
Lemma insertAllAt_left (depth : Z) (t1 : PartialTaptree) (leaves : list TapLeaf.t) :
  depth <= MAX_TAPTREE_DEPTH ->
  Forall (fun leaf => TapLeaf.depth leaf <> depth) leaves ->
  forall t0 t0',
    insertAllAt (depth + 1) t0 leaves = Ok t0' ->
    insertAllAt depth (Pair t0 t1) leaves = Ok (Pair t0' t1).
Proof.
  intros Hd Hl. induction Hl as [|leaf rest Hleaf _ IH]; intros t0 t0' H; simpl in *.
  - now inversion H.
  - destruct (instertLeafInTree leaf t0 (depth + 1)) as [t0a|e] eqn:E0; simpl in H;
      [|discriminate].
    destruct (truthy t0a) eqn:Tr; simpl in H; [|discriminate].
    rewrite instertLeafInTree_unfold.
    replace (depth >? MAX_TAPTREE_DEPTH) with false by lia.
    replace (TapLeaf.depth leaf =? depth) with false by lia.
    simpl. rewrite E0. simpl. rewrite Tr. simpl. now apply IH.
Qed.

(** Once the left subtree is a full TapTree, they go to the right one. *)
Lemma insertAllAt_right (depth : Z) (t0 : PartialTaptree) (leaves : list TapLeaf.t) :
  isTaptree t0 = true ->
  depth + 1 + height t0 <= MAX_TAPTREE_DEPTH ->
  Forall (fun leaf => TapLeaf.depth leaf <> depth) leaves ->
  forall t1 t1',
    insertAllAt (depth + 1) t1 leaves = Ok t1' ->
    insertAllAt depth (Pair t0 t1) leaves = Ok (Pair t0 t1').
Proof.
  intros Ht0 Hh Hl. pose proof (height_nonneg t0).
  induction Hl as [|leaf rest Hleaf _ IH]; intros t1 t1' H1; simpl in *.
  - now inversion H1.
  - destruct (instertLeafInTree leaf t1 (depth + 1)) as [t1a|e] eqn:E1; simpl in H1;
      [|discriminate].
    destruct (truthy t1a) eqn:Tr; simpl in H1; [|discriminate].
    rewrite instertLeafInTree_unfold.
    replace (depth >? MAX_TAPTREE_DEPTH) with false by lia.
    replace (TapLeaf.depth leaf =? depth) with false by lia.
    simpl. rewrite (instertLeafInTree_full leaf t0 Ht0) by lia. simpl.
    rewrite E1. simpl. rewrite Tr. simpl. now apply IH.
Qed.

(** An empty slot takes the first such leaf as a pair with an empty right
    side, and goes on as that pair. *)
Lemma insertAllAt_undefined (depth : Z) (leaves : list TapLeaf.t) :
  depth <= MAX_TAPTREE_DEPTH ->
  leaves <> [] ->
  Forall (fun leaf => TapLeaf.depth leaf <> depth) leaves ->
  forall t0',
    insertAllAt (depth + 1) Undefined leaves = Ok t0' ->
    insertAllAt depth Undefined leaves = Ok (Pair t0' Undefined).
Proof.
  intros Hd Hne Hl t0' H. destruct leaves as [|leaf rest]; [congruence|].
  inversion Hl as [|? ? Hleaf Hrest]; subst. simpl in *.
  destruct (instertLeafInTree leaf Undefined (depth + 1)) as [t0a|e] eqn:E0; simpl in H;
    [|discriminate].
  destruct (truthy t0a) eqn:Tr; simpl in H; [|discriminate].
  rewrite instertLeafInTree_unfold.
  replace (depth >? MAX_TAPTREE_DEPTH) with false by lia.
  replace (TapLeaf.depth leaf =? depth) with false by lia.
  simpl. rewrite E0. simpl. rewrite Tr. simpl.
  now apply insertAllAt_left.
Qed.

(** Induction along the recursion of [instertLeafInTree]: from the cap
    downwards. *)
Lemma depth_ind (P : Z -> Prop) :
  (forall depth, MAX_TAPTREE_DEPTH < depth -> P depth) ->
  (forall depth, depth <= MAX_TAPTREE_DEPTH -> P (depth + 1) -> P depth) ->
  forall depth, P depth.
Proof.
  intros Hcap Hstep depth.
  remember (Z.to_nat (MAX_TAPTREE_DEPTH + 1 - depth)) as n eqn:Hn.
  revert depth Hn. induction n as [|n IH]; intros depth Hn.
  - apply Hcap. lia.
  - apply Hstep; [lia|]. apply IH. lia.
Qed.

Ltac insert_step Hd :=
  rewrite instertLeafInTree_unfold;
  match type of Hd with
  | MAX_TAPTREE_DEPTH < ?d => replace (d >? MAX_TAPTREE_DEPTH) with true by lia
  | ?d <= MAX_TAPTREE_DEPTH => replace (d >? MAX_TAPTREE_DEPTH) with false by lia
  end.

(** The TapTree whose entries are inserted one after the other into an
    empty slot is built back. *)
Lemma insertAllAt_slots {prim : Primitives} (tree : PartialTaptree) :
  isTaptree tree = true ->
  explicitVersions tree ->
  forall depth,
    depth + height tree <= MAX_TAPTREE_DEPTH ->
    insertAllAt depth Undefined (map entryOf (slots tree depth)) = Ok tree.
Proof.
  induction tree as [| l | t0 IH0 t1 IH1]; intros Ht Hv depth Hh; simpl in *;
    try discriminate.
  - destruct Hv as (v & Hv & Hnz). destruct l as [out ver]. simpl in *. subst ver.
    assert (Hd : depth <= MAX_TAPTREE_DEPTH) by lia.
    unfold entryOf. simpl. insert_step Hd. simpl.
    rewrite Z.eqb_refl. simpl.
    replace (v =? 0) with false by lia. reflexivity.
  - apply andb_prop in Ht as [Ht0 Ht1]. destruct Hv as [Hv0 Hv1].
    pose proof (height_nonneg t0). pose proof (height_nonneg t1).
    assert (Hdeeper : forall t, Forall (fun leaf => TapLeaf.depth leaf <> depth)
                                       (map entryOf (slots t (depth + 1)))).
    { intros t. apply Forall_map. eapply Forall_impl; [|apply slots_depth].
      simpl. intros. lia. }
    rewrite map_app, insertAllAt_app.
    rewrite (insertAllAt_undefined depth _ ltac:(lia)) with (t0' := t0); simpl.
    + apply insertAllAt_right; auto; try lia. apply IH1; auto; lia.
    + intros E. apply map_eq_nil in E. now apply slots_nonempty in E.
    + apply Hdeeper.
    + apply IH0; auto; lia.
Qed.

(** [instertLeafInTree] throws nothing but the depth error. *)
Lemma instertLeafInTree_throws (leaf : TapLeaf.t) (depth : Z) :
  forall tree e, instertLeafInTree leaf tree depth = Throw e -> e = DepthExceeded.
Proof.
  induction depth as [depth Hd|depth Hd IH] using depth_ind; intros tree e; insert_step Hd.
  - congruence.
  - destruct (TapLeaf.depth leaf =? depth); [destruct (negb (truthy tree)); discriminate|].
    destruct (isTapleaf tree); [discriminate|].
    destruct (instertLeafInTree leaf (sub0 tree) (depth + 1)) as [l|e0] eqn:E0; simpl.
    + destruct (truthy l); [discriminate|].
      destruct (instertLeafInTree leaf (sub1 tree) (depth + 1)) as [r|e1] eqn:E1; simpl.
      * destruct (truthy r); discriminate.
      * intros H; inversion H; subst. eapply IH; eassumption.
    + intros H; inversion H; subst. eapply IH; eassumption.
Qed.

(** An insertion that is taken puts the leaf at its depth and moves
    nothing else. *)
Lemma instertLeafInTree_slots (leaf : TapLeaf.t) (depth : Z) :
  forall tree tree',
    instertLeafInTree leaf tree depth = Ok tree' ->
    truthy tree' = true ->
    Permutation (slots tree' depth) (slotOf leaf :: slots tree depth).
Proof.
  induction depth as [depth Hd|depth Hd IH] using depth_ind; intros tree tree';
    insert_step Hd; [discriminate|].
  destruct (TapLeaf.depth leaf =? depth) eqn:Eq.
  - destruct tree; simpl; intros H Tr; inversion H; subst; try discriminate.
    simpl. unfold slotOf. apply Z.eqb_eq in Eq. rewrite Eq. apply Permutation_refl.
  - destruct (isTapleaf tree) eqn:Lf; [intros H Tr; inversion H; subst; discriminate|].
    assert (Hs : slots tree depth = slots (sub0 tree) (depth + 1) ++ slots (sub1 tree) (depth + 1)).
    { destruct tree; simpl in *; try reflexivity; discriminate. }
    rewrite Hs.
    destruct (instertLeafInTree leaf (sub0 tree) (depth + 1)) as [l|e0] eqn:E0; simpl;
      [|discriminate].
    destruct (truthy l) eqn:Tl.
    + intros H _; inversion H; subst. simpl.
      apply (Permutation_app_tail (slots (sub1 tree) (depth + 1)) (IH _ _ E0 Tl)).
    + destruct (instertLeafInTree leaf (sub1 tree) (depth + 1)) as [r|e1] eqn:E1; simpl;
        [|discriminate].
      destruct (truthy r) eqn:Tr'; intros H Tr; inversion H; subst; [|discriminate].
      simpl. eapply Permutation_trans; [|apply Permutation_sym, Permutation_middle].
      apply Permutation_app_head. now apply IH.
Qed.

(** What the loop returns holds the leaves it was given, each once and at
    its depth, besides those it started with. *)
Lemma insertAllAt_slots_perm (depth : Z) (leaves : list TapLeaf.t) :
  forall tree tree',
    insertAllAt depth tree leaves = Ok tree' ->
    Permutation (slots tree' depth) (slots tree depth ++ map slotOf leaves).
Proof.
  induction leaves as [|leaf rest IH]; intros tree tree' H; simpl in *.
  - inversion H; subst. now rewrite app_nil_r.
  - destruct (instertLeafInTree leaf tree depth) as [t1|e] eqn:E; simpl in H; [|discriminate].
    destruct (truthy t1) eqn:Tr; simpl in H; [|discriminate].
    eapply Permutation_trans; [apply (IH _ _ H)|].
    eapply Permutation_trans;
      [apply Permutation_app_tail, (instertLeafInTree_slots _ _ _ _ E Tr)|].
    simpl. apply Permutation_middle.
Qed.

(** An insertion that is taken keeps the tree within the cap. *)
Lemma instertLeafInTree_height (leaf : TapLeaf.t) (depth : Z) :
  forall tree tree',
    instertLeafInTree leaf tree depth = Ok tree' ->
    truthy tree' = true ->
    (truthy tree = true -> depth + height tree <= MAX_TAPTREE_DEPTH) ->
    depth + height tree' <= MAX_TAPTREE_DEPTH.
Proof.
  induction depth as [depth Hd|depth Hd IH] using depth_ind; intros tree tree';
    insert_step Hd; [discriminate|].
  destruct (TapLeaf.depth leaf =? depth) eqn:Eq.
  - destruct tree; simpl; intros H Tr; inversion H; subst; try discriminate.
    simpl. lia.
  - destruct (isTapleaf tree) eqn:Lf; [intros H Tr; inversion H; subst; discriminate|].
    destruct (instertLeafInTree leaf (sub0 tree) (depth + 1)) as [l|e0] eqn:E0; simpl;
      [|discriminate].
    destruct (truthy l) eqn:Tl.
    + intros H _ Hfit; inversion H; subst. simpl.
      assert (depth + 1 + height l <= MAX_TAPTREE_DEPTH).
      { apply (IH _ _ E0 Tl). intros T0. destruct tree; simpl in *; try discriminate.
        specialize (Hfit eq_refl). lia. }
      pose proof (height_nonneg l).
      destruct tree; simpl in *; try discriminate; [lia|].
      specialize (Hfit eq_refl). lia.
    + destruct (instertLeafInTree leaf (sub1 tree) (depth + 1)) as [r|e1] eqn:E1; simpl;
        [|discriminate].
      destruct (truthy r) eqn:Tr'; intros H Tr Hfit; inversion H; subst; [|discriminate].
      simpl.
      assert (depth + 1 + height r <= MAX_TAPTREE_DEPTH).
      { apply (IH _ _ E1 Tr'). intros T1. destruct tree; simpl in *; try discriminate.
        specialize (Hfit eq_refl). lia. }
      pose proof (height_nonneg r).
      destruct tree; simpl in *; try discriminate; [lia|].
      specialize (Hfit eq_refl). lia.
Qed.

Lemma insertAllAt_height (depth : Z) (leaves : list TapLeaf.t) :
  forall tree tree',
    insertAllAt depth tree leaves = Ok tree' ->
    (truthy tree = true -> depth + height tree <= MAX_TAPTREE_DEPTH) ->
    truthy tree' = true ->
    depth + height tree' <= MAX_TAPTREE_DEPTH.
Proof.
  induction leaves as [|leaf rest IH]; intros tree tree' H Hfit Tr; simpl in *.
  - inversion H; subst. auto.
  - destruct (instertLeafInTree leaf tree depth) as [t1|e] eqn:E; simpl in H; [|discriminate].
    destruct (truthy t1) eqn:Tr1; simpl in H; [|discriminate].
    apply (IH _ _ H); auto. intros _.
    eapply instertLeafInTree_height; eauto.
Qed.

Lemma explicitVersions_slots (tree : PartialTaptree) :
  forall depth,
    Forall (fun slot => exists v, version (snd slot) = Some v /\ v <> 0) (slots tree depth) ->
    explicitVersions tree.
Proof.
  induction tree as [| l | t0 IH0 t1 IH1]; intros depth H; simpl in *.
  - exact I.
  - now inversion H.
  - apply Forall_app in H as [H0 H1]. split; eauto.
Qed.

(** A leaf that asks for a depth above the cap is never placed. *)
Lemma instertLeafInTree_above_cap (leaf : TapLeaf.t) (depth : Z) :
  MAX_TAPTREE_DEPTH < TapLeaf.depth leaf ->
  forall tree,
    instertLeafInTree leaf tree depth = Throw DepthExceeded
    \/ instertLeafInTree leaf tree depth = Ok Undefined.
Proof.
  intros Hleaf.
  induction depth as [depth Hd|depth Hd IH] using depth_ind; intros tree; insert_step Hd.
  - now left.
  - replace (TapLeaf.depth leaf =? depth) with false by lia.
    destruct (isTapleaf tree); [now right|].
    destruct (IH (sub0 tree)) as [E0|E0]; rewrite E0; simpl; [now left|].
    destruct (IH (sub1 tree)) as [E1|E1]; rewrite E1; simpl; [now left|now right].
Qed.

(** Into an empty slot it descends until the cap is passed. *)
Lemma instertLeafInTree_above_cap_undefined (leaf : TapLeaf.t) (depth : Z) :
  MAX_TAPTREE_DEPTH < TapLeaf.depth leaf ->
  instertLeafInTree leaf Undefined depth = Throw DepthExceeded.
Proof.
  intros Hleaf.
  induction depth as [depth Hd|depth Hd IH] using depth_ind; insert_step Hd.
  - reflexivity.
  - replace (TapLeaf.depth leaf =? depth) with false by lia.
    simpl. now rewrite IH.
Qed.

(** Into a tree within the cap that has an empty slot somewhere it descends
    until the cap is passed, too. *)
Lemma instertLeafInTree_above_cap_partial (leaf : TapLeaf.t) (depth : Z) :
  MAX_TAPTREE_DEPTH < TapLeaf.depth leaf ->
  forall tree,
    (truthy tree = true -> depth + height tree <= MAX_TAPTREE_DEPTH) ->
    isTaptree tree = false ->
    instertLeafInTree leaf tree depth = Throw DepthExceeded.
Proof.
  intros Hleaf.
  induction depth as [depth Hd|depth Hd IH] using depth_ind; intros tree Hfit Ht; insert_step Hd.
  - reflexivity.
  - replace (TapLeaf.depth leaf =? depth) with false by lia.
    destruct tree as [| l | t0 t1]; simpl in *; try discriminate.
    + now rewrite instertLeafInTree_above_cap_undefined.
    + specialize (Hfit eq_refl).
      pose proof (height_nonneg t0). pose proof (height_nonneg t1).
      destruct (isTaptree t0) eqn:Ht0.
      * rewrite (instertLeafInTree_full leaf t0 Ht0) by lia. simpl.
        rewrite IH; [reflexivity| |exact Ht]. intros _. lia.
      * rewrite (IH t0); [reflexivity| |exact Ht0]. intros _. lia.
Qed.

(** A leaf that asks for a depth within the cap is placed below an empty
    slot, at its depth. *)
Lemma instertLeafInTree_within_cap (leaf : TapLeaf.t) (depth : Z) :
  depth <= TapLeaf.depth leaf <= MAX_TAPTREE_DEPTH ->
  exists tree,
    instertLeafInTree leaf Undefined depth = Ok tree
    /\ truthy tree = true
    /\ slots tree depth = [slotOf leaf].
Proof.
  induction depth as [depth Hd|depth Hd IH] using depth_ind; intros Hleaf; [lia|].
  insert_step Hd.
  destruct (TapLeaf.depth leaf =? depth) eqn:Eq.
  - apply Z.eqb_eq in Eq. simpl. eexists; repeat split. unfold slotOf. now rewrite Eq.
  - apply Z.eqb_neq in Eq. destruct IH as (t & E & Tr & Hs); [lia|].
    simpl. rewrite E. simpl. rewrite Tr.
    eexists; repeat split. simpl. now rewrite Hs.
Qed.

Lemma instertLeavesFrom_above_cap (leaves : list TapLeaf.t) :
  Exists (fun leaf => MAX_TAPTREE_DEPTH < TapLeaf.depth leaf) leaves ->
  forall tree,
    instertLeavesFrom tree leaves = Throw DepthExceeded
    \/ instertLeavesFrom tree leaves = Throw MalformedTapTree.
Proof.
  induction 1 as [leaf rest Hleaf|leaf rest _ IH]; intros tree; simpl.
  - destruct (instertLeafInTree_above_cap leaf 0 Hleaf tree) as [E|E]; rewrite E; simpl; auto.
  - destruct (instertLeafInTree leaf tree 0) as [t|e] eqn:E; simpl.
    + destruct (truthy t); simpl; auto.
    + apply instertLeafInTree_throws in E. subst. auto.
Qed.

(** The loop throws the no-room error only where an insertion was turned
    down. *)
Lemma instertLeavesFrom_no_room (leaves : list TapLeaf.t) :
  forall tree,
    instertLeavesFrom tree leaves = Throw MalformedTapTree <->
    exists pre leaf post tree',
      leaves = pre ++ leaf :: post
      /\ instertLeavesFrom tree pre = Ok tree'
      /\ instertLeafInTree leaf tree' 0 = Ok Undefined.
Proof.
  induction leaves as [|leaf rest IH]; intros tree; simpl.
  - split; [discriminate|]. intros (pre & l & post & t & E & _). now destruct pre.
  - destruct (instertLeafInTree leaf tree 0) as [t1|e] eqn:E1; simpl.
    + destruct (truthy t1) eqn:Tr; simpl.
      * rewrite IH. split.
        -- intros (pre & l & post & t & -> & Hpre & Hl).
           exists (leaf :: pre), l, post, t. simpl. rewrite E1. simpl. rewrite Tr. simpl. auto.
        -- intros (pre & l & post & t & E & Hpre & Hl). destruct pre as [|p pre]; simpl in *.
           ++ inversion E; subst. inversion Hpre; subst. rewrite E1 in Hl.
              inversion Hl; subst. discriminate.
           ++ inversion E; subst. rewrite E1 in Hpre. simpl in Hpre. rewrite Tr in Hpre.
              simpl in Hpre. exists pre, l, post, t. auto.
      * split; [intros _|reflexivity].
        destruct t1; try discriminate. exists [], leaf, rest, tree. auto.
    + split.
      * intros H. inversion H; subst. apply instertLeafInTree_throws in E1. discriminate.
      * intros (pre & l & post & t & E & Hpre & Hl). destruct pre as [|p pre]; simpl in *.
        -- inversion E; subst. inversion Hpre; subst. congruence.
        -- inversion E; subst. rewrite E1 in Hpre. discriminate.
Qed.

(** C1 (as amended). A TapTree (every branch has both sides) within the
    depth cap whose leaves all state a non-zero version is reproduced by
    [tapTreeToList] followed by [tapTreeFromList]: same structure, scripts and
    versions, for any number of leaves. This holds in particular for every such
    tree that [tapTreeFromList] returns for a list whose entries state non-zero
    versions. *)
Theorem tapTree_roundtrip {prim : Primitives} :
  (forall tree,
      isTaptree tree = true ->
      height tree <= MAX_TAPTREE_DEPTH ->
      explicitVersions tree ->
      tapTreeToList tree = Ok (map entryOf (slots tree 0))
      /\ tapTreeFromList (Some (map entryOf (slots tree 0))) = Ok tree)
  /\ (forall leaves tree,
         tapTreeFromList (Some leaves) = Ok tree ->
         isTaptree tree = true ->
         Forall (fun leaf => TapLeaf.leafVersion leaf <> 0) leaves ->
         exists leaves',
           tapTreeToList tree = Ok leaves'
           /\ tapTreeFromList (Some leaves') = Ok tree).
Proof.
  assert (A : forall tree,
             isTaptree tree = true ->
             height tree <= MAX_TAPTREE_DEPTH ->
             explicitVersions tree ->
             tapTreeToList tree = Ok (map entryOf (slots tree 0))
             /\ tapTreeFromList (Some (map entryOf (slots tree 0))) = Ok tree).
  { intros tree Ht Hh Hv. split.
    - unfold tapTreeToList. rewrite Ht. simpl.
      rewrite (_tapTreeToList_complete tree Ht) by lia. reflexivity.
    - rewrite tapTreeFromList_loop. unfold instertLeavesInTree.
      rewrite instertLeavesFrom_insertAllAt. apply insertAllAt_slots; auto. }
  split; [exact A|].
  intros leaves tree H Ht Hv.
  rewrite tapTreeFromList_loop in H. unfold instertLeavesInTree in H.
  rewrite instertLeavesFrom_insertAllAt in H.
  exists (map entryOf (slots tree 0)). apply A; auto.
  - apply (insertAllAt_height 0 leaves Undefined tree H); [discriminate|].
    now apply isTaptree_truthy.
  - apply (explicitVersions_slots tree 0).
    apply insertAllAt_slots_perm in H. simpl in H.
    eapply Permutation_Forall; [apply Permutation_sym, H|].
    apply Forall_map. eapply Forall_impl; [|exact Hv].
    simpl. intros leaf Hleaf. eauto.
Qed.

Lemma tapTree_roundtrip_witness :
  tapTreeToList (prim := samplePrimitives) tree3
  = Ok (map (entryOf (prim := samplePrimitives)) (slots tree3 0))
  /\ tapTreeFromList (Some (map (entryOf (prim := samplePrimitives)) (slots tree3 0)))
     = Ok tree3.
Proof.
  apply (proj1 (tapTree_roundtrip (prim := samplePrimitives)) tree3).
  - reflexivity.
  - vm_compute. discriminate.
  - simpl. repeat split; eexists; (split; [reflexivity|discriminate]).
Defined.

(** C1 as stated fails: a one-leaf TapTree whose leaf states no version, or
    states version 0, comes back with version 0xc0. *)
Lemma tapTree_roundtrip_counterexample :
  (isTaptree leafNoVersion = true
   /\ leafCount leafNoVersion = 1%nat
   /\ tapTreeToList (prim := samplePrimitives) leafNoVersion = Ok [TapLeaf.mk 0 192 [x51]]
   /\ tapTreeFromList (Some [TapLeaf.mk 0 192 [x51]]) = Ok (Leaf (mkTapleaf [x51] (Some 192)))
   /\ Leaf (mkTapleaf [x51] (Some 192)) <> leafNoVersion)
  /\ (isTaptree leafVersion0 = true
      /\ tapTreeToList (prim := samplePrimitives) leafVersion0 = Ok [TapLeaf.mk 0 192 [x51]]
      /\ tapTreeFromList (Some [TapLeaf.mk 0 192 [x51]]) = Ok (Leaf (mkTapleaf [x51] (Some 192)))
      /\ Leaf (mkTapleaf [x51] (Some 192)) <> leafVersion0).
Proof.
  repeat split; try reflexivity; discriminate.
Qed.

(** C10. For the empty list, and for the omitted argument, [tapTreeFromList]
    returns [undefined]: it returns normally, with no tree and no error. *)
Theorem tapTreeFromList_empty :
  tapTreeFromList (Some []) = Ok Undefined
  /\ tapTreeFromList None = Ok Undefined
  /\ (forall e, tapTreeFromList (Some []) <> Throw e)
  /\ (forall e, tapTreeFromList None <> Throw e).
Proof.
  repeat split; try reflexivity; intros e H; discriminate H.
Qed.

(** C7 (as amended). [tapTreeFromList] throws the no-room error exactly when
    some insertion, made into the tree of the entries before it, is turned
    down; two entries that both ask for depth 0 are such a list. When it
    returns a tree, every entry of the list sits in that tree exactly once, at
    the depth it asks for, with its script and version. It does not look for
    empty slots in the tree it returns. *)
Theorem tapTreeFromList_no_room :
  (forall leaves,
      tapTreeFromList (Some leaves) = Throw MalformedTapTree <->
      exists pre leaf post tree,
        leaves = pre ++ leaf :: post
        /\ instertLeavesInTree pre = Ok tree
        /\ instertLeafInTree leaf tree 0 = Ok Undefined)
  /\ (forall leaf0 leaf1,
         TapLeaf.depth leaf0 = 0 ->
         TapLeaf.depth leaf1 = 0 ->
         tapTreeFromList (Some [leaf0; leaf1]) = Throw MalformedTapTree)
  /\ (forall leaves tree,
         tapTreeFromList (Some leaves) = Ok tree ->
         Permutation (slots tree 0) (map slotOf leaves)).
Proof.
  split; [|split].
  - intros leaves. rewrite tapTreeFromList_loop. apply instertLeavesFrom_no_room.
  - intros leaf0 leaf1 H0 H1. rewrite tapTreeFromList_loop.
    unfold instertLeavesInTree. simpl.
    rewrite instertLeafInTree_unfold, H0. simpl.
    rewrite instertLeafInTree_unfold, H1. reflexivity.
  - intros leaves tree H. rewrite tapTreeFromList_loop in H.
    unfold instertLeavesInTree in H. rewrite instertLeavesFrom_insertAllAt in H.
    apply insertAllAt_slots_perm in H. exact H.
Qed.

Lemma tapTreeFromList_no_room_witness :
  tapTreeFromList (Some [leafAt 0; leafAt 0]) = Throw MalformedTapTree.
Proof.
  apply (proj1 (proj2 tapTreeFromList_no_room) (leafAt 0) (leafAt 0)); reflexivity.
Defined.

(** C7 as stated fails: a single entry that asks for depth 1 is accepted, and
    the tree returned has an empty right side. *)
Lemma tapTreeFromList_no_room_counterexample :
  tapTreeFromList (Some [leafAt 1])
  = Ok (Pair (Leaf (mkTapleaf [x51] (Some 192))) Undefined)
  /\ isTaptree (Pair (Leaf (mkTapleaf [x51] (Some 192))) Undefined) = false.
Proof.
  split; reflexivity.
Qed.

(** C8 (as amended). A list with an entry that asks for a depth above 128 is
    always rejected by [tapTreeFromList], with the depth error or the no-room
    error: when the entries before it were all placed, with the depth error if
    the tree they make has an empty slot (so always when the entry comes
    first) and with the no-room error if that tree is a full TapTree. A
    TapTree nested deeper than 128 levels is rejected by [tapTreeToList] with
    the depth error. Depth 128 itself passes the cap in both directions. *)
Theorem depth_cap {prim : Primitives} :
  (forall leaves,
      Exists (fun leaf => MAX_TAPTREE_DEPTH < TapLeaf.depth leaf) leaves ->
      tapTreeFromList (Some leaves) = Throw DepthExceeded
      \/ tapTreeFromList (Some leaves) = Throw MalformedTapTree)
  /\ (forall pre leaf post tree,
         instertLeavesInTree pre = Ok tree ->
         MAX_TAPTREE_DEPTH < TapLeaf.depth leaf ->
         tapTreeFromList (Some (pre ++ leaf :: post))
         = Throw (if isTaptree tree then MalformedTapTree else DepthExceeded))
  /\ (forall leaf rest,
         MAX_TAPTREE_DEPTH < TapLeaf.depth leaf ->
         tapTreeFromList (Some (leaf :: rest)) = Throw DepthExceeded)
  /\ (forall tree,
         isTaptree tree = true ->
         MAX_TAPTREE_DEPTH < height tree ->
         tapTreeToList tree = Throw DepthExceeded)
  /\ (forall leaf,
         0 <= TapLeaf.depth leaf <= MAX_TAPTREE_DEPTH ->
         exists tree,
           tapTreeFromList (Some [leaf]) = Ok tree
           /\ slots tree 0 = [slotOf leaf])
  /\ (forall tree,
         isTaptree tree = true ->
         height tree <= MAX_TAPTREE_DEPTH ->
         tapTreeToList tree = Ok (map entryOf (slots tree 0))).
Proof.
  repeat apply conj.
  - intros leaves H. rewrite tapTreeFromList_loop. now apply instertLeavesFrom_above_cap.
  - intros pre leaf post tree Hpre Hleaf. rewrite tapTreeFromList_loop.
    unfold instertLeavesInTree in *. rewrite instertLeavesFrom_insertAllAt in *.
    rewrite insertAllAt_app, Hpre. simpl.
    assert (Hfit : truthy tree = true -> 0 + height tree <= MAX_TAPTREE_DEPTH).
    { intros Tr. apply (insertAllAt_height 0 pre Undefined tree Hpre); auto. discriminate. }
    destruct (isTaptree tree) eqn:Ht.
    + rewrite (instertLeafInTree_full leaf tree Ht) by (apply Hfit, isTaptree_truthy, Ht).
      reflexivity.
    + now rewrite (instertLeafInTree_above_cap_partial leaf 0 Hleaf tree Hfit Ht).
  - intros leaf rest H. rewrite tapTreeFromList_loop. unfold instertLeavesInTree. simpl.
    now rewrite instertLeafInTree_above_cap_undefined.
  - intros tree Ht Hh. unfold tapTreeToList. rewrite Ht. simpl.
    rewrite (_tapTreeToList_deep tree Ht) by lia. reflexivity.
  - intros leaf H. rewrite tapTreeFromList_loop. unfold instertLeavesInTree. simpl.
    destruct (instertLeafInTree_within_cap leaf 0 H) as (t & E & Tr & Hs).
    rewrite E. simpl. rewrite Tr. simpl. eauto.
  - intros tree Ht Hh. unfold tapTreeToList. rewrite Ht. simpl.
    rewrite (_tapTreeToList_complete tree Ht) by lia. reflexivity.
Qed.

(** A leaf at depth 129 and a comb 129 levels deep are rejected; a leaf at
    depth 128 and a comb 128 levels deep are converted. *)
Lemma depth_cap_witness :
  (tapTreeFromList (Some [leafAt 129]) = Throw DepthExceeded)
  /\ (tapTreeToList (prim := samplePrimitives) (comb 129) = Throw DepthExceeded)
  /\ (exists tree,
         tapTreeFromList (Some [leafAt 128]) = Ok tree
         /\ slots tree 0 = [slotOf (leafAt 128)])
  /\ (tapTreeToList (prim := samplePrimitives) (comb 128)
      = Ok (map (entryOf (prim := samplePrimitives)) (slots (comb 128) 0))).
Proof.
  destruct (depth_cap (prim := samplePrimitives)) as (_ & _ & Hfirst & Hdeep & Hleaf & Htree).
  split; [|split; [|split]].
  - apply (Hfirst (leafAt 129) []). reflexivity.
  - apply (Hdeep (comb 129)); vm_compute; reflexivity.
  - apply (Hleaf (leafAt 128)). split; discriminate.
  - apply (Htree (comb 128)); vm_compute; [reflexivity|discriminate].
Defined.

(** C8 as stated fails: an entry that asks for depth 129 behind an entry at
    depth 0 is rejected with the no-room error, not with the depth error. *)
Lemma depth_cap_counterexample :
  In (leafAt 129) [leafAt 0; leafAt 129]
  /\ tapTreeFromList (Some [leafAt 0; leafAt 129]) = Throw MalformedTapTree
  /\ tapTreeFromList (Some [leafAt 0; leafAt 129]) <> Throw DepthExceeded.
Proof.
  split; [right; left; reflexivity|]. split; [reflexivity|discriminate].
Qed.

(** ** Sorting *)

Section Sorting.
Variable A : Type.
Variable key : A -> Z.
Variable compareFn : A -> A -> Z.
Hypothesis compareFn_key : forall a b, compareFn a b = key a - key b.

Lemma insertSorted_perm (x : A) (l : list A) :
  Permutation (insertSorted compareFn x l) (x :: l).
Proof.
  induction l as [|y rest IH]; simpl; [apply Permutation_refl|].
  destruct (compareFn x y <=? 0); [apply Permutation_refl|].
  eapply Permutation_trans; [apply perm_skip, IH|apply perm_swap].
Qed.

Lemma Array_sort_perm (l : list A) : Permutation (Array_sort compareFn l) l.
Proof.
  induction l as [|x rest IH]; simpl; [constructor|].
  eapply Permutation_trans; [apply insertSorted_perm|now apply perm_skip].
Qed.

Lemma insertSorted_sorted (x : A) (l : list A) :
  StronglySorted (ascendingBy key) l -> StronglySorted (ascendingBy key) (insertSorted compareFn x l).
Proof.
  induction 1 as [|y rest Hs IH Hy]; simpl.
  - repeat constructor.
  - rewrite compareFn_key. destruct (key x - key y <=? 0) eqn:E.
    + constructor; [now constructor|]. constructor; [unfold ascendingBy; lia|].
      eapply Forall_impl; [|exact Hy]. unfold ascendingBy. intros; lia.
    + constructor; [exact IH|].
      eapply Permutation_Forall; [apply Permutation_sym, insertSorted_perm|].
      constructor; [unfold ascendingBy; lia|exact Hy].
Qed.

Lemma Array_sort_sorted (l : list A) : StronglySorted (ascendingBy key) (Array_sort compareFn l).
Proof.
  induction l as [|x rest IH]; simpl; [constructor|now apply insertSorted_sorted].
Qed.

(** Entries with equal keys keep the order they had. *)
Lemma insertSorted_stable (n : Z) (x : A) (l : list A) :
  filter (fun a => key a =? n) (insertSorted compareFn x l)
  = filter (fun a => key a =? n) (x :: l).
Proof.
  induction l as [|y rest IH]; simpl; [reflexivity|].
  rewrite compareFn_key. destruct (key x - key y <=? 0) eqn:E; [reflexivity|].
  simpl in *. rewrite IH.
  destruct (key y =? n) eqn:Ey; [|reflexivity].
  replace (key x =? n) with false by lia. reflexivity.
Qed.

Lemma Array_sort_stable (n : Z) (l : list A) :
  filter (fun a => key a =? n) (Array_sort compareFn l) = filter (fun a => key a =? n) l.
Proof.
  induction l as [|x rest IH]; simpl; [reflexivity|].
  rewrite insertSorted_stable. simpl. now rewrite IH.
Qed.

End Sorting.

(** Sorting the images is the image of sorting by the pulled-back
    comparator. *)
Lemma Array_sort_map {A B : Type} (f : A -> B) (compareFn : B -> B -> Z) (l : list A) :
  Array_sort compareFn (map f l)
  = map f (Array_sort (fun a b => compareFn (f a) (f b)) l).
Proof.
  induction l as [|x rest IH]; simpl; [reflexivity|].
  rewrite IH. generalize (Array_sort (fun a b => compareFn (f a) (f b)) rest).
  intros s. induction s as [|y s IHs]; simpl; [reflexivity|].
  destruct (compareFn (f x) (f y) <=? 0); simpl; [reflexivity|now rewrite IHs].
Qed.

Lemma find_split {A : Type} (f : A -> bool) (l : list A) (x : A) :
  find f l = Some x ->
  exists pre post, l = pre ++ x :: post /\ Forall (fun a => f a = false) pre /\ f x = true.
Proof.
  induction l as [|y rest IH]; simpl; [discriminate|].
  destruct (f y) eqn:E.
  - intros H; inversion H; subst. exists [], rest. auto.
  - intros H. destruct (IH H) as (pre & post & -> & Hpre & Hx).
    exists (y :: pre), post. auto.
Qed.

Lemma find_none_Forall {A : Type} (f : A -> bool) (l : list A) :
  find f l = None -> Forall (fun a => f a = false) l.
Proof.
  induction l as [|y rest IH]; simpl; [constructor|].
  destruct (f y) eqn:E; [discriminate|]. auto.
Qed.

Lemma StronglySorted_weaken {A : Type} (R R' : A -> A -> Prop) (l : list A) :
  (forall a b, R a b -> R' a b) -> StronglySorted R l -> StronglySorted R' l.
Proof.
  intros HR. induction 1 as [|x rest Hs IH Hx]; constructor; auto.
  eapply Forall_impl; [|exact Hx]. auto.
Qed.

Lemma filter_split_perm {A : Type} (f : A -> bool) (l : list A) :
  Permutation (filter f l ++ filter (fun a => negb (f a)) l) l.
Proof.
  induction l as [|x rest IH]; simpl; [constructor|].
  destruct (f x); simpl.
  - now apply perm_skip.
  - eapply Permutation_trans; [apply Permutation_sym, Permutation_middle|].
    now apply perm_skip.
Qed.

(** ** The finalizer *)

Section FinalizerFacts.
Context {prim : Primitives}.

Lemma canFinalizeLeaf_qualifies (leaf : TapLeafScript.t) (sigs : list TapScriptSig.t)
  (target : option Uint8Array) :
  canFinalizeLeaf leaf sigs target = true <-> qualifies sigs target leaf.
Proof.
  unfold canFinalizeLeaf, qualifies, leafHashOf.
  set (h := tapleafHash _). rewrite andb_true_iff.
  assert (Htarget : match target with
                    | Some hsh => tools.compare h hsh =? 0
                    | None => true
                    end = true <-> target = None \/ target = Some h).
  { destruct target as [hsh|]; [rewrite compare_eqb|]; split; auto.
    - intros ->. auto.
    - intros [H|H]; congruence. }
  rewrite Htarget. apply and_iff_compat_l.
  destruct (find _ sigs) as [tss|] eqn:F; simpl.
  - apply find_some in F as [Hin Hc]. apply compare_eqb in Hc. split; eauto.
  - split; [discriminate|]. intros (tss & Hin & Hc).
    apply (find_none _ _ F) in Hin. apply compare_neqb in Hin. contradiction.
Qed.

(** The call leaves every field but [tapLeafScript] as it was. *)
Lemma findTapLeafToFinalize_tapScriptSig (input : PsbtInput.t) (inputIndex : Z)
  (target : option Uint8Array) :
  PsbtInput.tapScriptSig (fst (findTapLeafToFinalize input inputIndex target))
  = PsbtInput.tapScriptSig input.
Proof.
  unfold findTapLeafToFinalize.
  destruct (negb (nonEmpty (PsbtInput.tapScriptSig input))); [reflexivity|].
  destruct (find _ _); simpl; destruct (PsbtInput.tapLeafScript input); reflexivity.
Qed.

(** When there is a signature, [tapLeafScript] is left sorted. *)
Lemma findTapLeafToFinalize_tapLeafScript (input : PsbtInput.t) (inputIndex : Z)
  (target : option Uint8Array) :
  nonEmpty (PsbtInput.tapScriptSig input) = true ->
  PsbtInput.tapLeafScript (fst (findTapLeafToFinalize input inputIndex target))
  = option_map (Array_sort (fun a b => lengthZ (TapLeafScript.controlBlock a)
                                       - lengthZ (TapLeafScript.controlBlock b)))
               (PsbtInput.tapLeafScript input).
Proof.
  intros H. unfold findTapLeafToFinalize. rewrite H. cbn [negb].
  destruct (find _ _); cbn [fst]; destruct (PsbtInput.tapLeafScript input) eqn:E;
    simpl; rewrite ?E; reflexivity.
Qed.

(** C3. Leaf selection throws the no-signature error when [tapScriptSig] is
    absent or empty. Otherwise the entries of [tapLeafScript] are put in
    ascending order of control-block length (entries of equal length keep
    their order), and the first entry in that order is returned that matches
    the target hash, when one is given, and has a signature made for its
    hash; when no entry does, the no-matching-leaf error is thrown. *)
Theorem findTapLeafToFinalize_selects :
  forall (input : PsbtInput.t) (inputIndex : Z) (target : option Uint8Array),
    ((PsbtInput.tapScriptSig input = None \/ PsbtInput.tapScriptSig input = Some []) ->
     snd (findTapLeafToFinalize input inputIndex target) = Throw (NoScriptSignature inputIndex))
    /\ (forall sig sigs,
           PsbtInput.tapScriptSig input = Some (sig :: sigs) ->
           exists ordered,
             Permutation ordered (orEmpty (PsbtInput.tapLeafScript input))
             /\ StronglySorted (ascendingBy pathLength) ordered
             /\ (forall n, filter (fun leaf => pathLength leaf =? n) ordered
                           = filter (fun leaf => pathLength leaf =? n)
                                    (orEmpty (PsbtInput.tapLeafScript input)))
             /\ ((exists pre leaf post,
                     ordered = pre ++ leaf :: post
                     /\ Forall (fun l => ~ qualifies (sig :: sigs) target l) pre
                     /\ qualifies (sig :: sigs) target leaf
                     /\ snd (findTapLeafToFinalize input inputIndex target) = Ok leaf)
                 \/ (Forall (fun l => ~ qualifies (sig :: sigs) target l)
                            (orEmpty (PsbtInput.tapLeafScript input))
                     /\ snd (findTapLeafToFinalize input inputIndex target)
                        = Throw (NoMatchingLeaf inputIndex)))).
Proof.
  intros input inputIndex target. split.
  - intros [H|H]; unfold findTapLeafToFinalize; rewrite H; reflexivity.
  - intros sig sigs Hsigs.
    set (cmp := fun a b : TapLeafScript.t =>
                  lengthZ (TapLeafScript.controlBlock a) - lengthZ (TapLeafScript.controlBlock b)).
    assert (Hcmp : forall a b, cmp a b = pathLength a - pathLength b) by reflexivity.
    exists (Array_sort cmp (orEmpty (PsbtInput.tapLeafScript input))).
    split; [apply (Array_sort_perm _ cmp)|].
    split; [apply (Array_sort_sorted _ pathLength cmp Hcmp)|].
    split; [intros n; apply (Array_sort_stable _ pathLength cmp Hcmp)|].
    unfold findTapLeafToFinalize. rewrite Hsigs. simpl negb. cbv iota.
    fold cmp.
    assert (Hs : orEmpty (PsbtInput.tapScriptSig
                            match PsbtInput.tapLeafScript input with
                            | Some _ =>
                                PsbtInput.with_tapLeafScript input
                                  (Some (Array_sort cmp (orEmpty (PsbtInput.tapLeafScript input))))
                            | None => input
                            end) = sig :: sigs).
    { destruct (PsbtInput.tapLeafScript input); simpl; rewrite Hsigs; reflexivity. }
    rewrite Hs.
    destruct (find _ _) as [leaf|] eqn:F; simpl.
    + left. apply find_split in F as (pre & post & E & Hpre & Hleaf).
      exists pre, leaf, post. split; [exact E|]. split; [|split; [|reflexivity]].
      * eapply Forall_impl; [|exact Hpre]. simpl. intros l Hl Hq.
        apply canFinalizeLeaf_qualifies in Hq. congruence.
      * now apply canFinalizeLeaf_qualifies.
    + right. split; [|reflexivity].
      apply find_none_Forall in F.
      eapply Permutation_Forall; [apply (Array_sort_perm _ cmp)|].
      eapply Forall_impl; [|exact F]. simpl. intros l Hl Hq.
      apply canFinalizeLeaf_qualifies in Hq. congruence.
Qed.

End FinalizerFacts.

(** The selection example of the specification: of two signed leaves with
    control blocks of 65 and 33 bytes, the one with 33 bytes is chosen. *)
Lemma findTapLeafToFinalize_selects_witness :
  exists ordered,
    Permutation ordered [leaf65; leaf33]
    /\ StronglySorted (ascendingBy pathLength) ordered
    /\ (forall n, filter (fun leaf => pathLength leaf =? n) ordered
                  = filter (fun leaf => pathLength leaf =? n) [leaf65; leaf33])
    /\ ((exists pre leaf post,
            ordered = pre ++ leaf :: post
            /\ Forall (fun l => ~ qualifies (prim := samplePrimitives)
                                   [sigFor65; sigFor33] None l) pre
            /\ qualifies (prim := samplePrimitives) [sigFor65; sigFor33] None leaf
            /\ snd (findTapLeafToFinalize (prim := samplePrimitives) signedInput 0 None)
               = Ok leaf)
        \/ (Forall (fun l => ~ qualifies (prim := samplePrimitives)
                                [sigFor65; sigFor33] None l) [leaf65; leaf33]
            /\ snd (findTapLeafToFinalize (prim := samplePrimitives) signedInput 0 None)
               = Throw (NoMatchingLeaf 0))).
Proof.
  apply (proj2 (findTapLeafToFinalize_selects (prim := samplePrimitives) signedInput 0 None)
               sigFor65 [sigFor33]).
  reflexivity.
Defined.

Section FinalizerStack.
Context {prim : Primitives}.

Lemma mapM_addPubkeyPositionInScript (script : Uint8Array) (pos : TapScriptSig.t -> Z)
  (l : list TapScriptSig.t) :
  (forall tss, In tss l -> pubkeyPositionInScript (TapScriptSig.pubkey tss) script = Ok (pos tss)) ->
  mapM (addPubkeyPositionInScript script) l = Ok (map (positioned pos) l).
Proof.
  induction l as [|tss rest IH]; intros H; simpl; [reflexivity|].
  unfold addPubkeyPositionInScript at 1. rewrite (H tss) by (now left). simpl.
  rewrite IH by (intros; apply H; now right). reflexivity.
Qed.

(** With the positions known, [sortSignatures] returns the signatures made
    for the leaf, those with the later key first. *)
Lemma sortSignatures_sorted (input : PsbtInput.t) (tapLeaf : TapLeafScript.t)
  (pos : TapScriptSig.t -> Z) :
  (forall tss,
      In tss (orEmpty (PsbtInput.tapScriptSig input)) ->
      TapScriptSig.leafHash tss = leafHashOf tapLeaf ->
      pubkeyPositionInScript (TapScriptSig.pubkey tss) (TapLeafScript.script tapLeaf)
      = Ok (pos tss)) ->
  exists ordered others,
    Permutation (ordered ++ others) (orEmpty (PsbtInput.tapScriptSig input))
    /\ Forall (fun tss => TapScriptSig.leafHash tss = leafHashOf tapLeaf) ordered
    /\ Forall (fun tss => TapScriptSig.leafHash tss <> leafHashOf tapLeaf) others
    /\ StronglySorted (fun a b => pos b <= pos a) ordered
    /\ sortSignatures input tapLeaf = Ok (map TapScriptSig.signature ordered).
Proof.
  intros Hpos. unfold sortSignatures. fold (leafHashOf tapLeaf).
  set (sigs := orEmpty (PsbtInput.tapScriptSig input)) in *.
  set (made := fun tss => tools.compare (TapScriptSig.leafHash tss) (leafHashOf tapLeaf) =? 0).
  set (cmp := fun a b : TapScriptSig.t => pos b - pos a).
  exists (Array_sort cmp (filter made sigs)), (filter (fun tss => negb (made tss)) sigs).
  assert (Hmade : Forall (fun tss => TapScriptSig.leafHash tss = leafHashOf tapLeaf)
                         (filter made sigs)).
  { apply Forall_forall. intros tss Hin. apply filter_In in Hin as [_ Hm].
    now apply compare_eqb in Hm. }
  split; [|split; [|split; [|split]]].
  - eapply Permutation_trans; [|apply (filter_split_perm made)].
    apply Permutation_app_tail, (Array_sort_perm _ cmp).
  - eapply Permutation_Forall; [apply Permutation_sym, (Array_sort_perm _ cmp)|exact Hmade].
  - apply Forall_forall. intros tss Hin. apply filter_In in Hin as [_ Hm].
    apply negb_true_iff in Hm. now apply compare_neqb in Hm.
  - apply (StronglySorted_weaken (ascendingBy (fun tss => - pos tss))).
    + unfold ascendingBy. intros; lia.
    + apply (Array_sort_sorted _ (fun tss => - pos tss) cmp). intros; unfold cmp; lia.
  - rewrite (mapM_addPubkeyPositionInScript _ pos).
    + simpl. rewrite Array_sort_map, map_map. reflexivity.
    + intros tss Hin. apply filter_In in Hin as [Hin Hm]. apply Hpos; auto.
      now apply compare_eqb in Hm.
Qed.

(** C2. When a leaf is selected (and the script parser finds a position for
    the key of every signature made for it), the finalizer's result is the
    witness-stack encoding of: the signatures of [tapScriptSig] whose
    [leafHash] is the hash of the selected leaf, in descending order of their
    key's position in the leaf script, then the leaf script, then the control
    block. What the encoder throws is rethrown with the input index. *)
Theorem tapScriptFinalizer_witness_stack :
  forall (inputIndex : Z) (input input' : PsbtInput.t) (target : option Uint8Array)
         (tapLeaf : TapLeafScript.t) (pos : TapScriptSig.t -> Z),
    findTapLeafToFinalize input inputIndex target = (input', Ok tapLeaf) ->
    (forall tss,
        In tss (orEmpty (PsbtInput.tapScriptSig input)) ->
        TapScriptSig.leafHash tss = leafHashOf tapLeaf ->
        pubkeyPositionInScript (TapScriptSig.pubkey tss) (TapLeafScript.script tapLeaf)
        = Ok (pos tss)) ->
    exists ordered others,
      Permutation (ordered ++ others) (orEmpty (PsbtInput.tapScriptSig input))
      /\ Forall (fun tss => TapScriptSig.leafHash tss = leafHashOf tapLeaf) ordered
      /\ Forall (fun tss => TapScriptSig.leafHash tss <> leafHashOf tapLeaf) others
      /\ StronglySorted (fun a b => pos b <= pos a) ordered
      /\ snd (tapScriptFinalizer inputIndex input target)
         = try_catch
             (witnessStackToScriptWitness
                (map TapScriptSig.signature ordered
                 ++ [TapLeafScript.script tapLeaf; TapLeafScript.controlBlock tapLeaf]))
             (FinalizeError inputIndex).
Proof.
  intros inputIndex input input' target tapLeaf pos Hfind Hpos.
  assert (Hsigs : PsbtInput.tapScriptSig input' = PsbtInput.tapScriptSig input).
  { rewrite <- (findTapLeafToFinalize_tapScriptSig input inputIndex target).
    now rewrite Hfind. }
  destruct (sortSignatures_sorted input' tapLeaf pos) as (ordered & others & P & Hm & Ho & S & E).
  { rewrite Hsigs. exact Hpos. }
  exists ordered, others. rewrite Hsigs in P.
  repeat (split; [assumption|]).
  unfold tapScriptFinalizer. rewrite Hfind. simpl. rewrite E. simpl.
  now rewrite <- app_assoc.
Qed.

End FinalizerStack.

(** The ordering example of the specification: with two keys in the leaf
    script and a signature for each, the signature for the later key comes
    first in the witness. *)
Lemma tapScriptFinalizer_witness_stack_witness :
  exists ordered others,
    Permutation (ordered ++ others) [sigKeyA; sigKeyB]
    /\ Forall (fun tss => TapScriptSig.leafHash tss
                          = leafHashOf (prim := samplePrimitives) leafTwoKeys) ordered
    /\ Forall (fun tss => TapScriptSig.leafHash tss
                          <> leafHashOf (prim := samplePrimitives) leafTwoKeys) others
    /\ StronglySorted
         (fun a b => indexOfByte (hd x00 (TapScriptSig.pubkey b)) (TapLeafScript.script leafTwoKeys) 0
                     <= indexOfByte (hd x00 (TapScriptSig.pubkey a)) (TapLeafScript.script leafTwoKeys) 0)
         ordered
    /\ snd (tapScriptFinalizer (prim := samplePrimitives) 0 twoKeyInput None)
       = try_catch
           (witnessStackToScriptWitness (Primitives := samplePrimitives)
              (map TapScriptSig.signature ordered
               ++ [TapLeafScript.script leafTwoKeys; TapLeafScript.controlBlock leafTwoKeys]))
           (FinalizeError 0).
Proof.
  apply (tapScriptFinalizer_witness_stack (prim := samplePrimitives) 0 twoKeyInput twoKeyInput
           None leafTwoKeys
           (fun tss => indexOfByte (hd x00 (TapScriptSig.pubkey tss))
                                   (TapLeafScript.script leafTwoKeys) 0)).
  - reflexivity.
  - intros tss [<-|[<-|[]]] _; reflexivity.
Defined.

(** The same run, evaluated: the signature for the key at offset 3 precedes
    the one for the key at offset 1, then come the script and the control
    block. *)
Example tapScriptFinalizer_two_keys :
  snd (tapScriptFinalizer (prim := samplePrimitives) 0 twoKeyInput None)
  = Ok (TapScriptSig.signature sigKeyB ++ TapScriptSig.signature sigKeyA
        ++ TapLeafScript.script leafTwoKeys ++ TapLeafScript.controlBlock leafTwoKeys).
Proof. reflexivity. Qed.

(** The selection run, evaluated: the leaf with the 33-byte control block. *)
Example findTapLeafToFinalize_shortest :
  snd (findTapLeafToFinalize (prim := samplePrimitives) signedInput 0 None) = Ok leaf33.
Proof. reflexivity. Qed.

(** C9 fails on the code: [findTapLeafToFinalize] sorts [input.tapLeafScript]
    in place. After a call on a signed input that lists a leaf with a 65-byte
    control block before one with a 33-byte control block, the input lists
    them the other way round, whatever the primitives are and whether the
    call returns or throws; [input.tapScriptSig] is as it was. *)
Theorem findTapLeafToFinalize_reorders_input :
  forall (prim : Primitives),
    PsbtInput.tapLeafScript signedInput = Some [leaf65; leaf33]
    /\ PsbtInput.tapLeafScript (fst (findTapLeafToFinalize signedInput 0 None))
       = Some [leaf33; leaf65]
    /\ PsbtInput.tapLeafScript (fst (tapScriptFinalizer 0 signedInput None))
       = Some [leaf33; leaf65]
    /\ PsbtInput.tapScriptSig (fst (tapScriptFinalizer 0 signedInput None))
       = PsbtInput.tapScriptSig signedInput.
Proof.
  intros prim.
  assert (H : PsbtInput.tapLeafScript (fst (findTapLeafToFinalize signedInput 0 None))
              = Some [leaf33; leaf65]).
  { now rewrite findTapLeafToFinalize_tapLeafScript. }
  assert (F : fst (tapScriptFinalizer 0 signedInput None)
              = fst (findTapLeafToFinalize signedInput 0 None)).
  { unfold tapScriptFinalizer.
    destruct (findTapLeafToFinalize signedInput 0 None) as [input' [leaf|e]]; reflexivity. }
  repeat split; try exact H.
  - rewrite F. exact H.
  - rewrite F. apply findTapLeafToFinalize_tapScriptSig.
Qed.

(** ** The field checks *)

Lemma present_iff {A : Type} (o : option A) : present o = true <-> o <> None.
Proof. destruct o; simpl; split; congruence. Qed.

Lemma nonEmpty_iff {A : Type} (o : option (list A)) :
  nonEmpty o = true <-> exists x l, o = Some (x :: l).
Proof.
  destruct o as [[|x l]|]; simpl; split; try discriminate; eauto;
    intros (y & l' & H); discriminate.
Qed.

(** [every] ends otherwise than with [true] exactly at the first element
    for which the callback ends otherwise, with what it ends with there. *)
Lemma every_stop {A : Type} (f : A -> result bool) (l : list A) (r : result bool) :
  r <> Ok true ->
  every f l = r
  <-> exists pre x post,
        l = pre ++ x :: post /\ Forall (fun a => f a = Ok true) pre /\ f x = r.
Proof.
  intros Hr. induction l as [|a l IH]; simpl.
  - split; [congruence|]. intros (pre & x & post & E & _). now destruct pre.
  - destruct (f a) as [[|]|e] eqn:Fa; simpl.
    + rewrite IH. split.
      * intros (pre & x & post & -> & Hpre & Hx). exists (a :: pre), x, post. auto.
      * intros (pre & x & post & E & Hpre & Hx). destruct pre as [|p pre]; simpl in E.
        -- inversion E; subst. congruence.
        -- inversion E; subst. inversion Hpre; subst. exists pre, x, post. auto.
    + split.
      * intros <-. exists [], a, l. auto.
      * intros (pre & x & post & E & Hpre & Hx). destruct pre as [|p pre]; simpl in E.
        -- inversion E; subst. congruence.
        -- inversion E; subst. inversion Hpre; subst. congruence.
    + split.
      * intros <-. exists [], a, l. auto.
      * intros (pre & x & post & E & Hpre & Hx). destruct pre as [|p pre]; simpl in E.
        -- inversion E; subst. congruence.
        -- inversion E; subst. inversion Hpre; subst. congruence.
Qed.

Lemma every_true {A : Type} (f : A -> result bool) (l : list A) :
  every f l = Ok true <-> Forall (fun a => f a = Ok true) l.
Proof.
  induction l as [|a l IH]; simpl.
  - split; auto.
  - destruct (f a) as [[|]|e] eqn:Fa; simpl.
    + rewrite IH. split; [auto|]. intros H. now inversion H.
    + split; [discriminate|]. intros H. inversion H; subst. congruence.
    + split; [discriminate|]. intros H. inversion H; subst. congruence.
Qed.

Section FieldChecks.
Context {prim : Primitives}.

(** The three ways the check of one leaf against a root ends. *)
Lemma isTapLeafInTree_outcome (leaf : TapLeafScript.t) (root : Uint8Array) :
  (isTapLeafInTree leaf (Some root) = Ok true <-> rootOf leaf = inr root)
  /\ (isTapLeafInTree leaf (Some root) = Ok false
      <-> exists other, rootOf leaf = inr other /\ other <> root)
  /\ (forall e, isTapLeafInTree leaf (Some root) = Throw e
                <-> exists typeError, rootOf leaf = inl typeError /\ e = ExternalError typeError).
Proof.
  unfold isTapLeafInTree, rootOf.
  destruct (rootHashFromPath _ _) as [typeError|rootHash]; split; [|split| |split].
  - split; discriminate.
  - split; [discriminate|]. intros (other & E & _). discriminate.
  - intros e. split.
    + intros H. inversion H; subst. eauto.
    + intros (t & E & ->). now inversion E.
  - split.
    + intros H. inversion H as [Hc]. apply compare_eqb in Hc. now subst.
    + intros H. inversion H; subst. f_equal. now apply compare_eqb.
  - split.
    + intros H. inversion H as [Hc]. apply compare_neqb in Hc. eauto.
    + intros (other & E & Hneq). inversion E; subst. f_equal. now apply compare_neqb.
  - intros e. split; [discriminate|]. intros (t & E & _). discriminate.
Qed.

(** The three ways the check of the leaves of an input against a root
    ends. *)
Lemma leaves_outcome (leaves : list TapLeafScript.t) (root : Uint8Array) :
  (every (fun l => isTapLeafInTree l (Some root)) leaves = Ok true
   <-> allInTree leaves root)
  /\ (every (fun l => isTapLeafInTree l (Some root)) leaves = Ok false
      <-> strayLeaf leaves root)
  /\ (forall typeError,
         every (fun l => isTapLeafInTree l (Some root)) leaves
         = Throw (ExternalError typeError)
         <-> brokenLeaf leaves root typeError)
  /\ (every (fun l => isTapLeafInTree l (Some root)) leaves = Ok true
      \/ every (fun l => isTapLeafInTree l (Some root)) leaves = Ok false
      \/ exists typeError,
           every (fun l => isTapLeafInTree l (Some root)) leaves
           = Throw (ExternalError typeError)).
Proof.
  assert (Htrue : forall leaf,
             isTapLeafInTree leaf (Some root) = Ok true <-> rootOf leaf = inr root).
  { intros leaf. apply (isTapLeafInTree_outcome leaf root). }
  assert (Hfalse : forall leaf,
             isTapLeafInTree leaf (Some root) = Ok false
             <-> exists other, rootOf leaf = inr other /\ other <> root).
  { intros leaf. apply (isTapLeafInTree_outcome leaf root). }
  assert (Hthrow : forall leaf e,
             isTapLeafInTree leaf (Some root) = Throw e
             <-> exists typeError, rootOf leaf = inl typeError /\ e = ExternalError typeError).
  { intros leaf. apply (isTapLeafInTree_outcome leaf root). }
  assert (Hall : forall l,
             Forall (fun a => isTapLeafInTree a (Some root) = Ok true) l <-> allInTree l root).
  { intros l. unfold allInTree. rewrite !Forall_forall.
    split; intros H leaf Hin; apply Htrue; auto. }
  split; [|split; [|split]].
  - rewrite every_true. apply Hall.
  - rewrite every_stop by discriminate. unfold strayLeaf. split.
    + intros (pre & x & post & E & Hpre & Hx).
      apply Hfalse in Hx. destruct Hx as (other & Hx & Hneq).
      exists pre, x, post, other. rewrite <- Hall. auto.
    + intros (pre & x & post & other & E & Hpre & Hx & Hneq).
      exists pre, x, post. rewrite Hall. repeat split; auto.
      apply Hfalse. eauto.
  - intros typeError. rewrite every_stop by discriminate. unfold brokenLeaf. split.
    + intros (pre & x & post & E & Hpre & Hx).
      apply Hthrow in Hx. destruct Hx as (t & Hx & Ht).
      inversion Ht; subst. exists pre, x, post. rewrite <- Hall. auto.
    + intros (pre & x & post & E & Hpre & Hx).
      exists pre, x, post. rewrite Hall. repeat split; auto.
      apply Hthrow. eauto.
  - induction leaves as [|leaf rest IH]; cbn [every]; [auto|].
    destruct (isTapLeafInTree leaf (Some root)) as [[|]|e] eqn:E; cbn [bind].
    + exact IH.
    + auto.
    + apply Hthrow in E. destruct E as (t & _ & ->). eauto.
Qed.

(** The branches of [checkIfTapLeafInTree], by the roots that are present. *)
Lemma checkIfTapLeafInTree_cases (old new : PsbtInput.t) (action : string) :
  checkIfTapLeafInTree old new action =
  match PsbtInput.tapMerkleRoot new, PsbtInput.tapMerkleRoot old with
  | Some root, _ =>
      newLeafsInTree <- every (fun l => isTapLeafInTree l (Some root))
                              (orEmpty (PsbtInput.tapLeafScript new)) ;;
      oldLeafsInTree <- every (fun l => isTapLeafInTree l (Some root))
                              (orEmpty (PsbtInput.tapLeafScript old)) ;;
      if newLeafsInTree && oldLeafsInTree then Ok tt else Throw (LeafNotInTree action)
  | None, Some root =>
      newLeafsInTree <- every (fun l => isTapLeafInTree l (Some root))
                              (orEmpty (PsbtInput.tapLeafScript new)) ;;
      if newLeafsInTree then Ok tt else Throw (LeafNotInTree action)
  | None, None => Ok tt
  end.
Proof.
  unfold checkIfTapLeafInTree.
  destruct (PsbtInput.tapMerkleRoot new) as [rootN|]; cbn [present].
  - destruct (every _ (orEmpty (PsbtInput.tapLeafScript new))) as [[|]|e]; cbn [bind];
      [| |reflexivity];
      now destruct (every _ (orEmpty (PsbtInput.tapLeafScript old))) as [[|]|e'].
  - destruct (PsbtInput.tapMerkleRoot old) as [rootO|]; cbn [present]; [|reflexivity].
    now destruct (every _ (orEmpty (PsbtInput.tapLeafScript new))) as [[|]|e].
Qed.

Lemma isTaprootInput_shaped (input : PsbtInput.t) :
  isTaprootInput input = true <-> taprootShaped input.
Proof.
  unfold isTaprootInput, taprootShaped.
  rewrite !orb_true_iff, !present_iff, !nonEmpty_iff.
  assert (H : match PsbtInput.witnessUtxo input with
              | Some utxo => isP2TR (WitnessUtxo.script utxo)
              | None => false
              end = true
              <-> exists utxo, PsbtInput.witnessUtxo input = Some utxo
                               /\ isP2TR (WitnessUtxo.script utxo) = true).
  { destruct (PsbtInput.witnessUtxo input) as [utxo|]; split; eauto.
    - intros (u & E & Hu). now inversion E; subst.
    - discriminate.
    - intros (u & E & _). discriminate. }
  rewrite H. tauto.
Qed.

Lemma hasNonTaprootFields_shaped (input : PsbtInput.t) :
  hasNonTaprootFields input = true <-> legacyShaped input.
Proof.
  unfold hasNonTaprootFields, legacyShaped. simpl.
  rewrite !orb_true_iff, !present_iff, !nonEmpty_iff. tauto.
Qed.

Lemma checkMixed_input_spec (h : store PsbtInput.t) (old new : ref) (action : string) :
  (mixedFields h old new ->
   checkMixedTaprootAndNonTaprootInputFields h old new action = Throw (MixedFieldsError action))
  /\ (~ mixedFields h old new ->
      checkMixedTaprootAndNonTaprootInputFields h old new action = Ok tt).
Proof.
  unfold checkMixedTaprootAndNonTaprootInputFields, mixedFields, sameObject.
  rewrite <- !isTaprootInput_shaped, <- !hasNonTaprootFields_shaped.
  rewrite <- (Nat.eqb_eq old new).
  destruct (isTaprootInput (h old)), (hasNonTaprootFields (h new)),
    (hasNonTaprootFields (h old)), (isTaprootInput (h new)), (Nat.eqb old new);
    simpl; split; intros H; try reflexivity; try tauto;
    exfalso; intuition discriminate.
Qed.

Lemma checkIfTapLeafInTree_result (old new : PsbtInput.t) (action : string) :
  checkIfTapLeafInTree old new action = Ok tt
  \/ checkIfTapLeafInTree old new action = Throw (LeafNotInTree action)
  \/ exists typeError,
       checkIfTapLeafInTree old new action = Throw (ExternalError typeError).
Proof.
  rewrite checkIfTapLeafInTree_cases.
  destruct (PsbtInput.tapMerkleRoot new) as [rootN|].
  - destruct (leaves_outcome (orEmpty (PsbtInput.tapLeafScript new)) rootN)
      as (_ & _ & _ & [N|[N|(t & N)]]); rewrite N; cbn [bind]; eauto;
      destruct (leaves_outcome (orEmpty (PsbtInput.tapLeafScript old)) rootN)
        as (_ & _ & _ & [O|[O|(t & O)]]); rewrite O; cbn [bind andb]; eauto.
  - destruct (PsbtInput.tapMerkleRoot old) as [rootO|]; [|auto].
    destruct (leaves_outcome (orEmpty (PsbtInput.tapLeafScript new)) rootO)
      as (_ & _ & _ & [N|[N|(t & N)]]); rewrite N; cbn [bind]; eauto.
Qed.

(** C4. [checkTaprootInputFields] throws the mixed-fields error exactly when
    the old input is Taproot-shaped and the new one carries a legacy field
    ([redeemScript], [witnessScript] or a non-empty [bip32Derivation]), or the
    old input carries a legacy field and the new one is Taproot-shaped, or old
    and new are the same object and it is both Taproot-shaped and
    legacy-shaped. *)
Theorem checkTaprootInputFields_mixed :
  forall (h : store PsbtInput.t) (old new : ref) (action : string),
    checkTaprootInputFields h old new action = Throw (MixedFieldsError action)
    <-> (taprootShaped (h old) /\ legacyShaped (h new))
        \/ (legacyShaped (h old) /\ taprootShaped (h new))
        \/ (old = new /\ taprootShaped (h new) /\ legacyShaped (h new)).
Proof.
  intros h old new action. fold (mixedFields h old new).
  destruct (checkMixed_input_spec h old new action) as [Hyes Hno].
  unfold checkTaprootInputFields. split.
  - intros H.
    destruct (checkMixedTaprootAndNonTaprootInputFields h old new action) as [[]|e] eqn:E.
    + simpl in H.
      destruct (checkIfTapLeafInTree_result (h old) (h new) action) as [R|[R|(t & R)]];
        rewrite R in H; discriminate.
    + unfold checkMixedTaprootAndNonTaprootInputFields in E.
      unfold mixedFields. rewrite <- !isTaprootInput_shaped, <- !hasNonTaprootFields_shaped.
      rewrite <- (Nat.eqb_eq old new). unfold sameObject in E.
      destruct (isTaprootInput (h old)), (hasNonTaprootFields (h new)),
        (hasNonTaprootFields (h old)), (isTaprootInput (h new)), (Nat.eqb old new);
        simpl in E; try discriminate; tauto.
  - intros H. now rewrite (Hyes H).
Qed.

End FieldChecks.

(** The mutual-exclusion examples of the specification: an input with only
    [tapInternalKey] against one with only [redeemScript], in both
    directions, and one input with both against itself. *)
Lemma checkTaprootInputFields_mixed_witness :
  checkTaprootInputFields (prim := samplePrimitives) inputStore 0%nat 1%nat "updateInput"
  = Throw (MixedFieldsError "updateInput")
  /\ checkTaprootInputFields (prim := samplePrimitives) inputStore 1%nat 0%nat "updateInput"
     = Throw (MixedFieldsError "updateInput")
  /\ checkTaprootInputFields (prim := samplePrimitives) inputStore 2%nat 2%nat "addInput"
     = Throw (MixedFieldsError "addInput").
Proof.
  split; [|split];
    apply (proj2 (checkTaprootInputFields_mixed (prim := samplePrimitives) inputStore _ _ _)).
  - left. split; [left; discriminate|left; discriminate].
  - right; left. split; [left; discriminate|left; discriminate].
  - right; right. split; [reflexivity|]. split; [left; discriminate|left; discriminate].
Defined.

Section LeafChecks.
Context {prim : Primitives}.

(** C5 (as amended). When the mixed-field check passes, the root that
    applies is that of the new input, else that of the old one. With a root
    in the new input, [checkTaprootInputFields] passes exactly when every
    [tapLeafScript] entry of the new and of the old input hashes up to it;
    with a root in the old input only, exactly when every entry of the new
    input hashes up to it: the entries of the old input are not checked then.
    With no root at all it passes. The entries are gone through in order, the
    new input's first, and each list up to its first entry that does not hash
    up to the root: if for such an entry the path hash throws (its control
    block is too short), that error comes out as it is; otherwise the
    leaf-not-in-tree error is thrown. *)
Theorem checkTaprootInputFields_leaf_in_tree :
  forall (h : store PsbtInput.t) (old new : ref) (action : string),
    checkMixedTaprootAndNonTaprootInputFields h old new action = Ok tt ->
    (forall root,
        PsbtInput.tapMerkleRoot (h new) = Some root ->
        (checkTaprootInputFields h old new action = Ok tt
         <-> allInTree (orEmpty (PsbtInput.tapLeafScript (h new))) root
             /\ allInTree (orEmpty (PsbtInput.tapLeafScript (h old))) root)
        /\ (checkTaprootInputFields h old new action = Throw (LeafNotInTree action)
            <-> (strayLeaf (orEmpty (PsbtInput.tapLeafScript (h new))) root
                 /\ (allInTree (orEmpty (PsbtInput.tapLeafScript (h old))) root
                     \/ strayLeaf (orEmpty (PsbtInput.tapLeafScript (h old))) root))
                \/ (allInTree (orEmpty (PsbtInput.tapLeafScript (h new))) root
                    /\ strayLeaf (orEmpty (PsbtInput.tapLeafScript (h old))) root))
        /\ (forall typeError,
               checkTaprootInputFields h old new action = Throw (ExternalError typeError)
               <-> brokenLeaf (orEmpty (PsbtInput.tapLeafScript (h new))) root typeError
                   \/ ((allInTree (orEmpty (PsbtInput.tapLeafScript (h new))) root
                        \/ strayLeaf (orEmpty (PsbtInput.tapLeafScript (h new))) root)
                       /\ brokenLeaf (orEmpty (PsbtInput.tapLeafScript (h old))) root
                                     typeError)))
    /\ (forall root,
           PsbtInput.tapMerkleRoot (h new) = None ->
           PsbtInput.tapMerkleRoot (h old) = Some root ->
           (checkTaprootInputFields h old new action = Ok tt
            <-> allInTree (orEmpty (PsbtInput.tapLeafScript (h new))) root)
           /\ (checkTaprootInputFields h old new action = Throw (LeafNotInTree action)
               <-> strayLeaf (orEmpty (PsbtInput.tapLeafScript (h new))) root)
           /\ (forall typeError,
                  checkTaprootInputFields h old new action = Throw (ExternalError typeError)
                  <-> brokenLeaf (orEmpty (PsbtInput.tapLeafScript (h new))) root typeError))
    /\ (PsbtInput.tapMerkleRoot (h new) = None ->
        PsbtInput.tapMerkleRoot (h old) = None ->
        checkTaprootInputFields h old new action = Ok tt)
    /\ (checkTaprootInputFields h old new action = Ok tt
        \/ checkTaprootInputFields h old new action = Throw (LeafNotInTree action)
        \/ exists typeError,
             checkTaprootInputFields h old new action = Throw (ExternalError typeError))
    /\ (forall leaf, isTapLeafInTree leaf None = Ok true).
Proof.
  intros h old new action Hmixed.
  unfold checkTaprootInputFields. rewrite Hmixed. cbn [bind].
  split; [|split; [|split; [|split; [|reflexivity]]]].
  - intros root EN. rewrite checkIfTapLeafInTree_cases, EN.
    destruct (leaves_outcome (orEmpty (PsbtInput.tapLeafScript (h new))) root)
      as (Nt & Nf & Nb & Ncase).
    destruct (leaves_outcome (orEmpty (PsbtInput.tapLeafScript (h old))) root)
      as (Ot & Of & Ob & Ocase).
    rewrite <- Nt, <- Nf, <- Ot, <- Of.
    split; [|split; [|intros typeError; rewrite <- (Nb typeError), <- (Ob typeError)]];
      destruct Ncase as [N|[N|(tn & N)]]; rewrite N; cbn [bind];
      try (destruct Ocase as [O|[O|(to & O)]]; rewrite O; cbn [bind andb]);
      intuition congruence.
  - intros root EN EO. rewrite checkIfTapLeafInTree_cases, EN, EO.
    destruct (leaves_outcome (orEmpty (PsbtInput.tapLeafScript (h new))) root)
      as (Nt & Nf & Nb & Ncase).
    rewrite <- Nt, <- Nf.
    split; [|split; [|intros typeError; rewrite <- (Nb typeError)]];
      destruct Ncase as [N|[N|(tn & N)]]; rewrite N; cbn [bind];
      intuition congruence.
  - intros EN EO. now rewrite checkIfTapLeafInTree_cases, EN, EO.
  - apply checkIfTapLeafInTree_result.
Qed.

End LeafChecks.

(** With the root 0x01 brought by the new input: an old input that reveals a
    leaf hashing up to another root is turned down with the
    leaf-not-in-tree error; so is one that reveals such a leaf before a leaf
    with a 10-byte control block; one that reveals the leaf with the 10-byte
    control block first fails with the error of the path hash. *)
Lemma checkTaprootInputFields_leaf_in_tree_witness :
  checkTaprootInputFields (prim := samplePrimitives) inputStore 5%nat 4%nat "updateInput"
  = Throw (LeafNotInTree "updateInput")
  /\ checkTaprootInputFields (prim := samplePrimitives) brokenStore 2%nat 0%nat "updateInput"
     = Throw (LeafNotInTree "updateInput")
  /\ checkTaprootInputFields (prim := samplePrimitives) brokenStore 1%nat 0%nat "updateInput"
     = Throw (ExternalError "The control-block length is too small.").
Proof.
  split; [|split].
  - destruct (checkTaprootInputFields_leaf_in_tree (prim := samplePrimitives)
                inputStore 5%nat 4%nat "updateInput" eq_refl) as (Hnew & _).
    destruct (Hnew [x01] eq_refl) as (_ & Hstray & _). apply Hstray.
    right. split; [constructor|].
    exists [], leaf33, [], [x02; xac]. repeat split; [constructor|discriminate].
  - destruct (checkTaprootInputFields_leaf_in_tree (prim := samplePrimitives)
                brokenStore 2%nat 0%nat "updateInput" eq_refl) as (Hnew & _).
    destruct (Hnew [x01] eq_refl) as (_ & Hstray & _). apply Hstray.
    right. split; [constructor|].
    exists [], leaf33, [leaf10], [x02; xac]. repeat split; [constructor|discriminate].
  - destruct (checkTaprootInputFields_leaf_in_tree (prim := samplePrimitives)
                brokenStore 1%nat 0%nat "updateInput" eq_refl) as (Hnew & _).
    destruct (Hnew [x01] eq_refl) as (_ & _ & Hbroken). apply Hbroken.
    right. split; [left; constructor|].
    exists [], leaf10, [leaf33]. repeat split. constructor.
Defined.

(** C5 as stated fails: the old input commits to the root 0x01 and reveals a
    leaf that does not hash up to it, the new input brings no root and no
    leaf, and the check passes. *)
Lemma checkTaprootInputFields_leaf_in_tree_counterexample :
  PsbtInput.tapMerkleRoot (inputStore 6%nat) = None
  /\ PsbtInput.tapMerkleRoot (inputStore 3%nat) = Some [x01]
  /\ In leaf33 (orEmpty (PsbtInput.tapLeafScript (inputStore 3%nat)))
  /\ isTapLeafInTree (prim := samplePrimitives) leaf33 (Some [x01]) = Ok false
  /\ checkTaprootInputFields (prim := samplePrimitives) inputStore 3%nat 6%nat "updateInput"
     = Ok tt.
Proof.
  split; [reflexivity|]. split; [reflexivity|]. split; [left; reflexivity|].
  split; reflexivity.
Qed.

Section OutputChecks.
Context {prim : Primitives}.

Lemma getTaprootScripPubkey_reconstructed (key : Uint8Array) (tapTree : option TapTree.t)
  (script : Uint8Array) :
  getTaprootScripPubkey key tapTree = Ok script <-> reconstructed key tapTree script.
Proof.
  unfold getTaprootScripPubkey, reconstructed. destruct tapTree as [tree|]; simpl.
  - destruct (tapTreeFromList (Some (TapTree.leaves tree))) as [scriptTree|e]; simpl; split.
    + intros H. exists scriptTree. auto.
    + intros (t & E & H). now inversion E; subst.
    + discriminate.
    + intros (t & E & _). discriminate.
  - split; [intros H; exists Undefined; auto|]. now intros (t & -> & H).
Qed.

(** C6 (as amended). When the mixed-field check passes and the new output
    carries [tapInternalKey] or [tapTree], and the merged internal key (the
    new one, else the old one) is present, and the output's script is
    reconstructed from that key and the merged tree, and the old output
    carries a script: [checkTaprootOutputFields] passes when the two scripts
    are byte-identical and throws the script-mismatch error when they are
    not. When the new output carries neither field, or no internal key is
    present, no script is compared and the check passes. *)
Theorem checkTaprootOutputFields_script :
  forall (h : store PsbtOutput.t) (old new : ref) (action : string),
    checkMixedTaprootAndNonTaprootOutputFields h old new action = Ok tt ->
    (PsbtOutput.tapTree (h new) = None /\ PsbtOutput.tapInternalKey (h new) = None ->
     checkTaprootOutputFields h old new action = Ok tt)
    /\ (orElse (PsbtOutput.tapInternalKey (h new)) (PsbtOutput.tapInternalKey (h old)) = None ->
        checkTaprootOutputFields h old new action = Ok tt)
    /\ (forall key script scriptPubkey,
           PsbtOutput.tapTree (h new) <> None \/ PsbtOutput.tapInternalKey (h new) <> None ->
           orElse (PsbtOutput.tapInternalKey (h new)) (PsbtOutput.tapInternalKey (h old))
           = Some key ->
           reconstructed key
             (orElse (PsbtOutput.tapTree (h new)) (PsbtOutput.tapTree (h old))) script ->
           PsbtOutput.script (h old) = Some scriptPubkey ->
           (script = scriptPubkey -> checkTaprootOutputFields h old new action = Ok tt)
           /\ (script <> scriptPubkey ->
               checkTaprootOutputFields h old new action = Throw ScriptMismatch)).
Proof.
  intros h old new action Hmixed.
  unfold checkTaprootOutputFields. rewrite Hmixed. cbn [bind].
  unfold checkTaprootScriptPubkey. split; [|split].
  - intros [-> ->]. reflexivity.
  - intros ->. now destruct (_ && _).
  - intros key script scriptPubkey Hnew Hkey Hscript Hspk.
    assert (Hguard : negb (present (PsbtOutput.tapTree (h new)))
                     && negb (present (PsbtOutput.tapInternalKey (h new))) = false).
    { destruct Hnew as [H|H]; apply present_iff in H; rewrite H; simpl;
        [reflexivity|apply andb_false_r]. }
    rewrite Hguard, Hkey, Hspk.
    apply getTaprootScripPubkey_reconstructed in Hscript. rewrite Hscript. cbn [bind].
    split.
    + intros ->. now rewrite compare_refl.
    + intros Hneq. apply compare_neqb in Hneq. now rewrite Hneq.
Qed.

End OutputChecks.

(** An update that carries the internal key again is checked against the
    script of the output: the script 0x00 is not the Taproot script of the
    key. *)
Lemma checkTaprootOutputFields_script_witness :
  checkTaprootOutputFields (prim := samplePrimitives) outputStore 0%nat 2%nat "updateOutput"
  = Throw ScriptMismatch.
Proof.
  assert (Hmixed : checkMixedTaprootAndNonTaprootOutputFields (prim := samplePrimitives)
                     outputStore 0%nat 2%nat "updateOutput" = Ok tt) by reflexivity.
  destruct (checkTaprootOutputFields_script (prim := samplePrimitives)
              outputStore 0%nat 2%nat "updateOutput" Hmixed) as (_ & _ & H).
  apply (H (repeat x02 32) (x51 :: x20 :: repeat x02 32) [x00]).
  - right. simpl. discriminate.
  - reflexivity.
  - exists Undefined. split; reflexivity.
  - reflexivity.
  - discriminate.
Defined.

(** C6 as stated fails: the output has an internal key and a script that is
    not the Taproot script of that key, the update carries no Taproot field,
    and the check passes. *)
Lemma checkTaprootOutputFields_script_counterexample :
  orElse (PsbtOutput.tapInternalKey (outputStore 1%nat))
         (PsbtOutput.tapInternalKey (outputStore 0%nat)) = Some (repeat x02 32)
  /\ PsbtOutput.script (outputStore 0%nat) = Some [x00]
  /\ getTaprootScripPubkey (prim := samplePrimitives) (repeat x02 32)
       (orElse (PsbtOutput.tapTree (outputStore 1%nat)) (PsbtOutput.tapTree (outputStore 0%nat)))
     = Ok (x51 :: x20 :: repeat x02 32)
  /\ tools.compare (x51 :: x20 :: repeat x02 32) [x00] <> 0
  /\ checkTaprootOutputFields (prim := samplePrimitives) outputStore 0%nat 1%nat "updateOutput"
     = Ok tt.
Proof.
  split; [reflexivity|]. split; [reflexivity|]. split; [reflexivity|].
  split; [discriminate|reflexivity].
Qed.

(** ** Further facts about the tree codec *)

Lemma slots_height (tree : PartialTaptree) :
  forall depth, Forall (fun slot => fst slot <= depth + height tree) (slots tree depth).
Proof.
  induction tree as [| l | t0 IH0 t1 IH1]; intros depth; simpl.
  - constructor.
  - constructor; [simpl; lia|constructor].
  - apply Forall_app; split;
      [specialize (IH0 (depth + 1))|specialize (IH1 (depth + 1))];
      (eapply Forall_impl; [|eassumption]); simpl; intros; lia.
Qed.

(** After a first insertion the loop holds a tree at every step. *)
Lemma insertAllAt_truthy (depth : Z) (leaves : list TapLeaf.t) :
  forall tree tree',
    insertAllAt depth tree leaves = Ok tree' ->
    leaves <> [] ->
    truthy tree' = true.
Proof.
  induction leaves as [|leaf rest IH]; intros tree tree' H Hne; [congruence|].
  simpl in H.
  destruct (instertLeafInTree leaf tree depth) as [t1|e]; simpl in H; [|discriminate].
  destruct (truthy t1) eqn:Tr; simpl in H; [|discriminate].
  destruct rest as [|leaf' rest'].
  - simpl in H. now inversion H; subst.
  - apply (IH _ _ H). discriminate.
Qed.

Lemma tapTreeFromList_insertAllAt (leaves : list TapLeaf.t) :
  tapTreeFromList (Some leaves) = insertAllAt 0 Undefined leaves.
Proof.
  rewrite tapTreeFromList_loop. unfold instertLeavesInTree.
  apply instertLeavesFrom_insertAllAt.
Qed.

(** X1. [tapTreeFromList] returns [undefined] for the empty list only: for
    a list with an entry it returns a tree or throws. *)
Theorem tapTreeFromList_undefined_only_empty :
  forall leaves, tapTreeFromList (Some leaves) = Ok Undefined <-> leaves = [].
Proof.
  intros leaves. rewrite tapTreeFromList_insertAllAt. split.
  - intros H. destruct leaves as [|leaf rest]; [reflexivity|].
    apply insertAllAt_truthy in H; [discriminate H|discriminate].
  - intros ->. reflexivity.
Qed.

(** X2. A list that [tapTreeFromList] accepts asks only for depths from 0
    to 128, and the tree returned is nested at most 128 levels: a negative
    depth, like one above the cap, is never accepted. *)
Theorem tapTreeFromList_depth_range :
  forall leaves tree,
    tapTreeFromList (Some leaves) = Ok tree ->
    Forall (fun leaf => 0 <= TapLeaf.depth leaf <= MAX_TAPTREE_DEPTH) leaves
    /\ height tree <= MAX_TAPTREE_DEPTH.
Proof.
  intros leaves tree H. rewrite tapTreeFromList_insertAllAt in H.
  assert (Hh : height tree <= MAX_TAPTREE_DEPTH).
  { destruct (truthy tree) eqn:Tr.
    - apply (insertAllAt_height 0 leaves Undefined tree H); [discriminate|exact Tr].
    - destruct tree; discriminate. }
  split; [|exact Hh].
  pose proof (insertAllAt_slots_perm 0 leaves Undefined tree H) as P. simpl in P.
  assert (F : Forall (fun slot => 0 <= fst slot <= MAX_TAPTREE_DEPTH) (map slotOf leaves)).
  { eapply Permutation_Forall; [exact P|].
    pose proof (slots_depth tree 0) as Hlo. pose proof (slots_height tree 0) as Hhi.
    rewrite Forall_forall in *. intros slot Hin.
    specialize (Hlo slot Hin). specialize (Hhi slot Hin). simpl in *. lia. }
  rewrite Forall_map in F. exact F.
Qed.

Lemma tapTreeFromList_depth_range_witness :
  Forall (fun leaf => 0 <= TapLeaf.depth leaf <= MAX_TAPTREE_DEPTH) unorderedLeaves
  /\ height (Pair (Pair (Leaf (mkTapleaf [x51] (Some 192))) (Leaf (mkTapleaf [x53] (Some 192))))
                  (Leaf (mkTapleaf [x52] (Some 192)))) <= MAX_TAPTREE_DEPTH.
Proof.
  apply (tapTreeFromList_depth_range unorderedLeaves). reflexivity.
Defined.

Lemma entryOf_slotOf {prim : Primitives} (leaf : TapLeaf.t) :
  TapLeaf.leafVersion leaf <> 0 -> entryOf (slotOf leaf) = leaf.
Proof.
  intros H. destruct leaf as [d v sc]. unfold entryOf, slotOf. simpl in *.
  replace (v =? 0) with false by lia. reflexivity.
Qed.

(** X3. When [tapTreeFromList] makes a TapTree of a list whose entries state
    non-zero versions, [tapTreeToList] of that tree returns the entries of
    the list, each once, in depth-first order: a rearrangement of the list,
    which need not be the list itself, since the order of the list is not
    checked. *)
Theorem tapTreeFromList_then_tapTreeToList {prim : Primitives} :
  forall leaves tree,
    tapTreeFromList (Some leaves) = Ok tree ->
    isTaptree tree = true ->
    Forall (fun leaf => TapLeaf.leafVersion leaf <> 0) leaves ->
    exists leaves',
      tapTreeToList tree = Ok leaves'
      /\ Permutation leaves' leaves
      /\ leaves' = map entryOf (slots tree 0).
Proof.
  intros leaves tree H Ht Hv. rewrite tapTreeFromList_insertAllAt in H.
  exists (map entryOf (slots tree 0)). split; [|split; [|reflexivity]].
  - unfold tapTreeToList. rewrite Ht. simpl.
    rewrite (_tapTreeToList_complete tree Ht); [reflexivity|].
    pose proof (insertAllAt_height 0 leaves Undefined tree H) as Hh.
    apply Hh; [discriminate|now apply isTaptree_truthy].
  - apply insertAllAt_slots_perm in H. simpl in H.
    eapply Permutation_trans; [apply Permutation_map, H|].
    rewrite map_map.
    replace (map (fun x => entryOf (slotOf x)) leaves) with leaves; [apply Permutation_refl|].
    clear H. induction Hv as [|leaf rest Hleaf _ IH]; simpl; [reflexivity|].
    rewrite (entryOf_slotOf leaf Hleaf). f_equal. exact IH.
Qed.

(** The list out of depth-first order comes back in depth-first order. *)
Lemma tapTreeFromList_then_tapTreeToList_witness :
  exists leaves',
    tapTreeToList (prim := samplePrimitives)
      (Pair (Pair (Leaf (mkTapleaf [x51] (Some 192))) (Leaf (mkTapleaf [x53] (Some 192))))
            (Leaf (mkTapleaf [x52] (Some 192))))
    = Ok leaves'
    /\ Permutation leaves' unorderedLeaves
    /\ leaves' = [TapLeaf.mk 2 192 [x51]; TapLeaf.mk 2 192 [x53]; TapLeaf.mk 1 192 [x52]].
Proof.
  apply (tapTreeFromList_then_tapTreeToList (prim := samplePrimitives) unorderedLeaves).
  - reflexivity.
  - reflexivity.
  - repeat constructor; discriminate.
Defined.

(** X4. [tapTreeToList] tells TapTrees apart: two trees whose leaves all
    state a non-zero version and that are converted to the same list are the
    same tree. *)
Theorem tapTreeToList_injective {prim : Primitives} :
  forall tree1 tree2 leaves,
    tapTreeToList tree1 = Ok leaves ->
    tapTreeToList tree2 = Ok leaves ->
    explicitVersions tree1 ->
    explicitVersions tree2 ->
    tree1 = tree2.
Proof.
  assert (A : forall tree leaves,
             tapTreeToList tree = Ok leaves ->
             explicitVersions tree ->
             insertAllAt 0 Undefined leaves = Ok tree).
  { intros tree leaves H Hv. unfold tapTreeToList in H.
    destruct (isTaptree tree) eqn:Ht; simpl in H; [|discriminate].
    destruct (Z_lt_le_dec MAX_TAPTREE_DEPTH (0 + height tree)) as [Hh|Hh].
    - rewrite (_tapTreeToList_deep tree Ht) in H by exact Hh. discriminate.
    - rewrite (_tapTreeToList_complete tree Ht) in H by exact Hh. simpl in H.
      inversion H; subst. now apply insertAllAt_slots. }
  intros tree1 tree2 leaves H1 H2 Hv1 Hv2.
  pose proof (A _ _ H1 Hv1) as E1. pose proof (A _ _ H2 Hv2) as E2.
  congruence.
Qed.

Lemma tapTreeToList_injective_witness :
  tapTreeToList (prim := samplePrimitives) tree3
  = Ok (map (entryOf (prim := samplePrimitives)) (slots tree3 0))
  /\ explicitVersions tree3
  /\ tree3 = tree3.
Proof.
  assert (Hv : explicitVersions tree3).
  { simpl. repeat split; eexists; (split; [reflexivity|discriminate]). }
  split; [reflexivity|]. split; [exact Hv|].
  apply (tapTreeToList_injective (prim := samplePrimitives) tree3 tree3
           (map (entryOf (prim := samplePrimitives)) (slots tree3 0)));
    [reflexivity|reflexivity|exact Hv|exact Hv].
Defined.

(** ** Further facts about the finalizer *)

(** Sorting a sorted array leaves it as it is. *)
Lemma Array_sort_sorted_id {A : Type} (key : A -> Z) (compareFn : A -> A -> Z) (l : list A) :
  (forall a b, compareFn a b = key a - key b) ->
  StronglySorted (ascendingBy key) l ->
  Array_sort compareFn l = l.
Proof.
  intros Hcmp. induction 1 as [|x rest Hs IH Hx]; simpl; [reflexivity|].
  rewrite IH. destruct rest as [|y rest']; simpl; [reflexivity|].
  inversion Hx as [|? ? Hxy _]; subst. unfold ascendingBy in Hxy.
  rewrite Hcmp. replace (key x - key y <=? 0) with true by lia. reflexivity.
Qed.

Lemma StronglySorted_middle {A : Type} (R : A -> A -> Prop) (pre post : list A) (x : A) :
  StronglySorted R (pre ++ x :: post) -> Forall (R x) post.
Proof.
  induction pre as [|p pre IH]; simpl; intros H; inversion H; subst; auto.
Qed.

Section FinalizerMore.
Context {prim : Primitives}.

(** X5. A second call of [findTapLeafToFinalize] on the input as the first
    call left it changes nothing more and gives the same outcome: the input
    is reordered once. *)
Theorem findTapLeafToFinalize_idempotent :
  forall (input : PsbtInput.t) (inputIndex : Z) (target : option Uint8Array),
    findTapLeafToFinalize (fst (findTapLeafToFinalize input inputIndex target))
                          inputIndex target
    = findTapLeafToFinalize input inputIndex target.
Proof.
  intros input inputIndex target. unfold findTapLeafToFinalize at 2 3.
  destruct (negb (nonEmpty (PsbtInput.tapScriptSig input))) eqn:Hs.
  - simpl. unfold findTapLeafToFinalize. now rewrite Hs.
  - set (cmp := fun a b : TapLeafScript.t =>
                  lengthZ (TapLeafScript.controlBlock a) - lengthZ (TapLeafScript.controlBlock b)).
    assert (Hcmp : forall a b, cmp a b = pathLength a - pathLength b) by reflexivity.
    set (sorted := Array_sort cmp (orEmpty (PsbtInput.tapLeafScript input))).
    set (input' := match PsbtInput.tapLeafScript input with
                   | Some _ => PsbtInput.with_tapLeafScript input (Some sorted)
                   | None => input
                   end).
    assert (Hfst : forall r : result TapLeafScript.t,
               fst (match find (fun leaf => canFinalizeLeaf leaf
                                              (orEmpty (PsbtInput.tapScriptSig input')) target)
                               sorted with
                    | Some tapLeaf => (input', Ok tapLeaf)
                    | None => (input', Throw (NoMatchingLeaf inputIndex))
                    end) = input').
    { intros _. now destruct (find _ sorted). }
    rewrite (Hfst (Throw DepthExceeded)).
    unfold findTapLeafToFinalize.
    assert (Hsig : PsbtInput.tapScriptSig input' = PsbtInput.tapScriptSig input).
    { unfold input'. now destruct (PsbtInput.tapLeafScript input). }
    rewrite Hsig, Hs. fold cmp.
    assert (Hsorted : Array_sort cmp (orEmpty (PsbtInput.tapLeafScript input')) = sorted).
    { unfold input'. destruct (PsbtInput.tapLeafScript input) as [l|] eqn:E; simpl.
      - apply (Array_sort_sorted_id pathLength cmp _ Hcmp).
        apply (Array_sort_sorted _ pathLength cmp Hcmp).
      - unfold sorted. now rewrite E. }
    rewrite Hsorted.
    assert (Hinput : match PsbtInput.tapLeafScript input' with
                     | Some _ => PsbtInput.with_tapLeafScript input' (Some sorted)
                     | None => input'
                     end = input').
    { unfold input'. destruct (PsbtInput.tapLeafScript input) eqn:E; simpl; rewrite ?E;
        reflexivity. }
    rewrite Hinput, ?Hsig. reflexivity.
Qed.

(** X6. The leaf that [findTapLeafToFinalize] returns is an entry of
    [tapLeafScript] that can be finalized, and no entry that can be has a
    shorter control block. *)
Theorem findTapLeafToFinalize_shortest_path :
  forall (input : PsbtInput.t) (inputIndex : Z) (target : option Uint8Array)
         (tapLeaf : TapLeafScript.t),
    snd (findTapLeafToFinalize input inputIndex target) = Ok tapLeaf ->
    In tapLeaf (orEmpty (PsbtInput.tapLeafScript input))
    /\ qualifies (orEmpty (PsbtInput.tapScriptSig input)) target tapLeaf
    /\ forall other,
         In other (orEmpty (PsbtInput.tapLeafScript input)) ->
         qualifies (orEmpty (PsbtInput.tapScriptSig input)) target other ->
         pathLength tapLeaf <= pathLength other.
Proof.
  intros input inputIndex target tapLeaf. unfold findTapLeafToFinalize.
  destruct (negb (nonEmpty (PsbtInput.tapScriptSig input))); [discriminate|].
  set (cmp := fun a b : TapLeafScript.t =>
                lengthZ (TapLeafScript.controlBlock a) - lengthZ (TapLeafScript.controlBlock b)).
  assert (Hcmp : forall a b, cmp a b = pathLength a - pathLength b) by reflexivity.
  set (leaves := orEmpty (PsbtInput.tapLeafScript input)).
  assert (Hs : orEmpty (PsbtInput.tapScriptSig
                          match PsbtInput.tapLeafScript input with
                          | Some _ =>
                              PsbtInput.with_tapLeafScript input (Some (Array_sort cmp leaves))
                          | None => input
                          end) = orEmpty (PsbtInput.tapScriptSig input)).
  { now destruct (PsbtInput.tapLeafScript input). }
  rewrite Hs.
  destruct (find _ (Array_sort cmp leaves)) as [leaf|] eqn:F; simpl; [|discriminate].
  intros E; inversion E; subst leaf.
  apply find_split in F as (pre & post & Esort & Hpre & Hleaf).
  pose proof (Array_sort_perm _ cmp leaves) as P.
  pose proof (Array_sort_sorted _ pathLength cmp Hcmp leaves) as S.
  rewrite Esort in P, S.
  split; [|split].
  - eapply Permutation_in; [exact P|]. apply in_or_app. right. now left.
  - now apply canFinalizeLeaf_qualifies.
  - intros other Hin Hq.
    apply (Permutation_in _ (Permutation_sym P)) in Hin.
    apply in_app_or in Hin as [Hin|[<-|Hin]].
    + rewrite Forall_forall in Hpre. specialize (Hpre other Hin).
      apply canFinalizeLeaf_qualifies in Hq. congruence.
    + lia.
    + apply StronglySorted_middle in S. rewrite Forall_forall in S. exact (S other Hin).
Qed.


End FinalizerMore.

Lemma findTapLeafToFinalize_shortest_path_witness :
  In leaf33 [leaf65; leaf33]
  /\ qualifies (prim := samplePrimitives) [sigFor65; sigFor33] None leaf33
  /\ forall other,
       In other [leaf65; leaf33] ->
       qualifies (prim := samplePrimitives) [sigFor65; sigFor33] None other ->
       pathLength leaf33 <= pathLength other.
Proof.
  apply (findTapLeafToFinalize_shortest_path (prim := samplePrimitives) signedInput 0 None leaf33).
  reflexivity.
Defined.

(** ** Keys and signatures *)

Lemma firstn_skipn_app {A : Type} (l r : list A) (n : nat) :
  List.length l = n -> firstn n (l ++ r) = l /\ skipn n (l ++ r) = r.
Proof.
  revert n; induction l as [|x l IH]; intros n H; subst; simpl.
  - now destruct r.
  - destruct (IH (List.length l) eq_refl) as [-> ->]. auto.
Qed.

Lemma byteValue_toUint8 (n : Z) : byteValue (toUint8 n) = n mod 256.
Proof.
  unfold byteValue, toUint8. pose proof (Z.mod_pos_bound n 256 ltac:(lia)) as Hb.
  destruct (Byte.of_N (Z.to_N (n mod 256))) as [b|] eqn:E.
  - apply Byte.to_of_N in E. rewrite E. lia.
  - apply Byte.of_N_None_iff in E. lia.
Qed.

Lemma toUint8_byteValue (b : byte) : toUint8 (byteValue b) = b.
Proof.
  unfold byteValue, toUint8. pose proof (Byte.to_N_bounded b) as Hb.
  rewrite Z.mod_small by lia. rewrite N2Z.id. now rewrite Byte.of_to_N.
Qed.

(** X8. [toXOnly] on a key of 32 bytes or more returns 32 bytes, which are
    the key itself when it has 32 bytes and otherwise the 32 bytes after
    its first; applied again it changes nothing. A shorter key does not come
    out with 32 bytes. *)
Theorem toXOnly_x_only :
  forall pubKey,
    ((32 <= List.length pubKey)%nat ->
     List.length (toXOnly pubKey) = 32%nat
     /\ toXOnly (toXOnly pubKey) = toXOnly pubKey
     /\ (List.length pubKey = 32%nat -> toXOnly pubKey = pubKey)
     /\ (forall prefix rest, pubKey = prefix :: rest -> List.length rest = 32%nat ->
                             toXOnly pubKey = rest))
    /\ ((List.length pubKey < 32)%nat -> (List.length (toXOnly pubKey) < 32)%nat).
Proof.
  intros pubKey.
  assert (Hshort : List.length pubKey <> 32%nat ->
                   toXOnly pubKey = firstn 32 (skipn 1 pubKey)).
  { intros H. unfold toXOnly. apply Nat.eqb_neq in H. now rewrite H. }
  assert (Hexact : forall k, List.length k = 32%nat -> toXOnly k = k).
  { intros k H. unfold toXOnly. now rewrite H. }
  split.
  - intros Hlen. destruct (Nat.eq_dec (List.length pubKey) 32) as [E|E].
    + rewrite (Hexact pubKey E). split; [exact E|]. split; [now apply Hexact|].
      split; [reflexivity|]. intros prefix rest -> H. cbn [List.length] in E. lia.
    + rewrite (Hshort E).
      assert (L : List.length (firstn 32 (skipn 1 pubKey)) = 32%nat).
      { rewrite length_firstn, length_skipn. lia. }
      split; [exact L|]. split; [now apply Hexact|]. split; [intros H; lia|].
      intros prefix rest -> H. change (skipn 1 (prefix :: rest)) with rest.
      apply firstn_all2. lia.
  - intros Hlen. rewrite Hshort by lia.
    rewrite length_firstn, length_skipn. lia.
Qed.

Lemma toXOnly_x_only_witness :
  List.length (toXOnly (x02 :: repeat xab 32)) = 32%nat
  /\ toXOnly (toXOnly (x02 :: repeat xab 32)) = toXOnly (x02 :: repeat xab 32)
  /\ (List.length (x02 :: repeat xab 32) = 32%nat ->
      toXOnly (x02 :: repeat xab 32) = x02 :: repeat xab 32)
  /\ (forall prefix rest, x02 :: repeat xab 32 = prefix :: rest -> List.length rest = 32%nat ->
                          toXOnly (x02 :: repeat xab 32) = rest).
Proof.
  apply (proj1 (toXOnly_x_only (x02 :: repeat xab 32))). simpl. lia.
Defined.

(** X9. Decoding a serialized signature gives back the 64 signature bytes
    and the sighash type modulo 256; without a sighash type, or with the
    type 0, no byte is appended and the decoded type is 0. *)
Theorem decode_serialized_signature :
  forall sig sighashType,
    List.length sig = 64%nat ->
    decodeSchnorrSignature (serializeTaprootSignature sig sighashType)
    = DecodedSignature.mk sig
        match sighashType with
        | Some n => n mod 256
        | None => 0
        end
    /\ List.length (serializeTaprootSignature sig sighashType)
       = match sighashType with
         | Some n => if n =? 0 then 64%nat else 65%nat
         | None => 64%nat
         end.
Proof.
  intros sig sighashType Hlen.
  unfold decodeSchnorrSignature, serializeTaprootSignature, SIGHASH_DEFAULT.
  rewrite length_app, Hlen.
  destruct sighashType as [n|]; [destruct (n =? 0) eqn:E|].
  - apply Z.eqb_eq in E. subst. rewrite app_nil_r.
    rewrite firstn_all2, skipn_all2 by lia. auto.
  - destruct (firstn_skipn_app sig [toUint8 n] 64 Hlen) as [-> ->].
    rewrite byteValue_toUint8. split; [|reflexivity].
    destruct (n mod 256 =? 0) eqn:E0; [apply Z.eqb_eq in E0; now rewrite E0|reflexivity].
  - rewrite app_nil_r. rewrite firstn_all2, skipn_all2 by lia. auto.
Qed.

Lemma decode_serialized_signature_witness :
  decodeSchnorrSignature (serializeTaprootSignature (repeat x07 64) (Some 131))
  = DecodedSignature.mk (repeat x07 64) (131 mod 256)
  /\ List.length (serializeTaprootSignature (repeat x07 64) (Some 131))
     = (if 131 =? 0 then 64%nat else 65%nat).
Proof.
  apply (decode_serialized_signature (repeat x07 64) (Some 131)). reflexivity.
Defined.

(** X10. Serializing what was decoded gives the signature back when it has
    64 bytes, or 65 bytes the last of which is not 0; of 65 bytes that end
    in 0 only the first 64 come back. *)
Theorem serialize_decoded_signature :
  forall signature,
    let decoded := decodeSchnorrSignature signature in
    (List.length signature = 64%nat ->
     serializeTaprootSignature (DecodedSignature.signature decoded)
                               (Some (DecodedSignature.hashType decoded)) = signature)
    /\ (forall sig b,
           signature = sig ++ [b] -> List.length sig = 64%nat ->
           serializeTaprootSignature (DecodedSignature.signature decoded)
                                     (Some (DecodedSignature.hashType decoded))
           = if byteValue b =? 0 then sig else signature).
Proof.
  intros signature decoded. subst decoded.
  unfold decodeSchnorrSignature, serializeTaprootSignature, SIGHASH_DEFAULT.
  cbn [DecodedSignature.signature DecodedSignature.hashType].
  split.
  - intros Hlen. rewrite firstn_all2, skipn_all2 by lia. cbn [Z.eqb]. apply app_nil_r.
  - intros sig b -> Hlen.
    destruct (firstn_skipn_app sig [b] 64 Hlen) as [-> ->].
    destruct (byteValue b =? 0) eqn:E; [cbn [Z.eqb]; apply app_nil_r|].
    rewrite E. now rewrite toUint8_byteValue.
Qed.

(** Where the signatures of [extractTaprootSigs] come from, by cases. *)
Lemma extractTaprootSigs_cases :
  forall input,
    (carriedSigs input <> [] -> extractTaprootSigs input = carriedSigs input)
    /\ (carriedSigs input = [] ->
        extractTaprootSigs input
        = match PsbtInput.finalScriptWitness input with
          | Some fsw =>
              if Nat.eqb (List.length fsw) 66 || Nat.eqb (List.length fsw) 67
              then [skipn 2 fsw]
              else []
          | None => []
          end)
    /\ (forall sig,
           In sig (extractTaprootSigs input) ->
           In sig (carriedSigs input)
           \/ (List.length sig = 64%nat \/ List.length sig = 65%nat)).
Proof.
  intros input.
  assert (E : extractTaprootSigs input
              = if Nat.eqb (List.length (carriedSigs input)) 0
                then match getTapKeySigFromWitness (PsbtInput.finalScriptWitness input) with
                     | Some s => [s]
                     | None => []
                     end
                else carriedSigs input).
  { unfold extractTaprootSigs, carriedSigs.
    destruct (PsbtInput.tapKeySig input) as [k|], (PsbtInput.tapScriptSig input) as [l|];
      simpl; try reflexivity;
      try (destruct (map TapScriptSig.signature l) eqn:M; simpl; [|reflexivity]);
      now destruct (getTapKeySigFromWitness _). }
  assert (G : forall fsw,
             getTapKeySigFromWitness (Some fsw)
             = if Nat.eqb (List.length fsw) 66 || Nat.eqb (List.length fsw) 67
               then Some (skipn 2 fsw) else None).
  { intros fsw. unfold getTapKeySigFromWitness. rewrite length_skipn.
    destruct (Nat.eqb (List.length fsw - 2) 64) eqn:E1,
      (Nat.eqb (List.length fsw - 2) 65) eqn:E2,
      (Nat.eqb (List.length fsw) 66) eqn:E3,
      (Nat.eqb (List.length fsw) 67) eqn:E4; simpl; try reflexivity;
      rewrite ?Nat.eqb_eq, ?Nat.eqb_neq in *; lia. }
  split; [|split].
  - intros H. rewrite E. destruct (carriedSigs input); [congruence|reflexivity].
  - intros H. rewrite E, H. cbn [List.length Nat.eqb].
    destruct (PsbtInput.finalScriptWitness input) as [fsw|]; [|reflexivity].
    rewrite G. now destruct (_ || _).
  - intros sig. rewrite E.
    destruct (Nat.eqb (List.length (carriedSigs input)) 0); [|auto].
    destruct (PsbtInput.finalScriptWitness input) as [fsw|]; [|intros []].
    rewrite G. destruct (_ || _) eqn:L; [|intros []].
    intros [<-|[]]. right. rewrite length_skipn.
    apply orb_true_iff in L. rewrite !Nat.eqb_eq in L. lia.
Qed.

(** X11. [extractTaprootSigs] returns the key-path signature, if there is
    one, and then the script-path signatures in their order. Only when the
    input carries none of these does it look at the finalized witness, and
    then it returns at most one signature: the witness without its first two
    bytes, when that has 64 or 65 bytes. *)
Theorem extractTaprootSigs_sources :
  forall input,
    (carriedSigs input <> [] -> extractTaprootSigs input = carriedSigs input)
    /\ (carriedSigs input = [] ->
        extractTaprootSigs input
        = match PsbtInput.finalScriptWitness input with
          | Some fsw =>
              if Nat.eqb (List.length fsw) 66 || Nat.eqb (List.length fsw) 67
              then [skipn 2 fsw]
              else []
          | None => []
          end)
    /\ (forall sig,
           In sig (extractTaprootSigs input) ->
           In sig (carriedSigs input)
           \/ (List.length sig = 64%nat \/ List.length sig = 65%nat)).
Proof.
  exact extractTaprootSigs_cases.
Qed.

Section PolicyFacts.
Context {policy : SignaturePolicy}.

(** X12. [checkTaprootInputForSigs] says that the action is blocked exactly
    when the policy blocks it for a signature the input carries, or, for an
    input that carries none, for the signature taken from its finalized
    witness. So a finalized witness is not consulted once the input carries a
    signature, and an input with no signature and no witness is never
    blocked. *)
Theorem checkTaprootInputForSigs_blocked :
  forall input action,
    checkTaprootInputForSigs input action = true
    <-> (exists sig,
            In sig (carriedSigs input)
            /\ signatureBlocksAction sig decodeSchnorrSignature action = true)
        \/ (carriedSigs input = []
            /\ exists fsw,
                PsbtInput.finalScriptWitness input = Some fsw
                /\ (List.length fsw = 66%nat \/ List.length fsw = 67%nat)
                /\ signatureBlocksAction (skipn 2 fsw) decodeSchnorrSignature action = true).
Proof.
  intros input action. unfold checkTaprootInputForSigs. rewrite existsb_exists.
  destruct (extractTaprootSigs_cases input) as (Hcarried & Hfinal & _).
  destruct (carriedSigs input) as [|s rest] eqn:C.
  - rewrite (Hfinal eq_refl). split.
    + intros (sig & Hin & Hb). right. split; [reflexivity|].
      destruct (PsbtInput.finalScriptWitness input) as [fsw|]; [|destruct Hin].
      destruct (_ || _) eqn:L; [|destruct Hin].
      destruct Hin as [<-|[]]. exists fsw. split; [reflexivity|]. split; [|exact Hb].
      apply orb_true_iff in L. now rewrite !Nat.eqb_eq in L.
    + intros [(sig & [] & _)|(_ & fsw & -> & L & Hb)].
      exists (skipn 2 fsw). split; [|exact Hb].
      replace (Nat.eqb (List.length fsw) 66 || Nat.eqb (List.length fsw) 67) with true;
        [now left|].
      symmetry. apply orb_true_iff. rewrite !Nat.eqb_eq. exact L.
  - rewrite Hcarried by discriminate. split.
    + intros H. left. exact H.
    + intros [H|(H & _)]; [exact H|discriminate].
Qed.

End PolicyFacts.

(** A key-path signature of sighash type 1 blocks under the sample policy;
    a finalized key-path witness of 64 signature bytes does not. *)
Lemma checkTaprootInputForSigs_blocked_witness :
  checkTaprootInputForSigs (policy := samplePolicy) keySigInput "addInput" = true
  /\ checkTaprootInputForSigs (policy := samplePolicy) finalizedInput "addInput" <> true.
Proof.
  split.
  - apply (proj2 (checkTaprootInputForSigs_blocked (policy := samplePolicy)
                    keySigInput "addInput")).
    left. exists (repeat x07 64 ++ [x01]). split; [left; reflexivity|reflexivity].
  - intros H.
    apply (proj1 (checkTaprootInputForSigs_blocked (policy := samplePolicy)
                    finalizedInput "addInput")) in H.
    destruct H as [(sig & [] & _)|(_ & fsw & E & _ & Hb)].
    inversion E; subst. discriminate Hb.
Defined.

(** ** Further facts about the field checks *)

Section FieldChecksMore.
Context {prim : Primitives}.

Lemma isTaprootOutput_shaped (output : PsbtOutput.t) :
  isTaprootOutput output None = true <-> outputTaprootShaped output.
Proof.
  unfold isTaprootOutput, outputTaprootShaped.
  rewrite !orb_true_iff, !present_iff, !nonEmpty_iff. intuition discriminate.
Qed.

Lemma hasNonTaprootFields_output_shaped (output : PsbtOutput.t) :
  hasNonTaprootFields output = true <-> outputLegacyShaped output.
Proof.
  unfold hasNonTaprootFields, outputLegacyShaped. simpl.
  rewrite !orb_true_iff, !present_iff, !nonEmpty_iff. tauto.
Qed.

(** X13. [checkTaprootOutputFields] throws the mixed-fields error, before
    any script is rebuilt, when the old output has a Taproot field
    ([tapInternalKey], [tapTree] or a non-empty [tapBip32Derivation]) and the
    new one a legacy field, or the other way round, or both are one object
    that has both; otherwise its outcome is that of the script check. The
    output's script plays no part in this: [isTaprootOutput] is called
    without one. *)
Theorem checkTaprootOutputFields_mixed :
  forall (h : store PsbtOutput.t) (old new : ref) (action : string),
    ((outputTaprootShaped (h old) /\ outputLegacyShaped (h new))
     \/ (outputLegacyShaped (h old) /\ outputTaprootShaped (h new))
     \/ (old = new /\ outputTaprootShaped (h new) /\ outputLegacyShaped (h new)) ->
     checkTaprootOutputFields h old new action = Throw (MixedFieldsError action))
    /\ (~ ((outputTaprootShaped (h old) /\ outputLegacyShaped (h new))
           \/ (outputLegacyShaped (h old) /\ outputTaprootShaped (h new))
           \/ (old = new /\ outputTaprootShaped (h new) /\ outputLegacyShaped (h new))) ->
        checkTaprootOutputFields h old new action
        = checkTaprootScriptPubkey (h old) (h new)).
Proof.
  intros h old new action.
  unfold checkTaprootOutputFields, checkMixedTaprootAndNonTaprootOutputFields, sameObject.
  rewrite <- !isTaprootOutput_shaped, <- !hasNonTaprootFields_output_shaped.
  rewrite <- (Nat.eqb_eq old new).
  destruct (isTaprootOutput (h old) None), (hasNonTaprootFields (h new)),
    (hasNonTaprootFields (h old)), (isTaprootOutput (h new) None), (Nat.eqb old new);
    simpl; split; intros H; try reflexivity; try tauto;
    exfalso; intuition discriminate.
Qed.

(** X14. When old and new are one object, as when an input is added,
    [checkTaprootInputFields] passes exactly when the input does not have
    both Taproot and legacy fields and, if it has a Merkle root, for every one
    of its [tapLeafScript] entries the path hash is computed and equals that
    root: an entry on which the path hash throws never passes. *)
Theorem checkTaprootInputFields_same_object :
  forall (h : store PsbtInput.t) (r : ref) (action : string),
    checkTaprootInputFields h r r action = Ok tt
    <-> ~ (taprootShaped (h r) /\ legacyShaped (h r))
        /\ (forall root leaf,
               PsbtInput.tapMerkleRoot (h r) = Some root ->
               In leaf (orEmpty (PsbtInput.tapLeafScript (h r))) ->
               rootOf leaf = inr root).
Proof.
  intros h r action. unfold checkTaprootInputFields.
  destruct (checkMixed_input_spec h r r action) as [Hyes Hno].
  assert (Hm : mixedFields h r r <-> taprootShaped (h r) /\ legacyShaped (h r)).
  { unfold mixedFields. tauto. }
  assert (Hleaf : checkIfTapLeafInTree (h r) (h r) action = Ok tt
                  <-> forall root leaf,
                        PsbtInput.tapMerkleRoot (h r) = Some root ->
                        In leaf (orEmpty (PsbtInput.tapLeafScript (h r))) ->
                        rootOf leaf = inr root).
  { rewrite checkIfTapLeafInTree_cases.
    destruct (PsbtInput.tapMerkleRoot (h r)) as [root|];
      [|split; [intros _ root leaf E; discriminate E|intros _; reflexivity]].
    destruct (leaves_outcome (orEmpty (PsbtInput.tapLeafScript (h r))) root)
      as (Ht & _ & _ & Hcase).
    assert (Hall : allInTree (orEmpty (PsbtInput.tapLeafScript (h r))) root
                   <-> forall root' leaf,
                         Some root = Some root' ->
                         In leaf (orEmpty (PsbtInput.tapLeafScript (h r))) ->
                         rootOf leaf = inr root').
    { unfold allInTree. rewrite Forall_forall. split.
      - intros H root' leaf E Hin. inversion E; subst. now apply H.
      - intros H leaf Hin. now apply H. }
    rewrite <- Hall, <- Ht.
    destruct Hcase as [E|[E|(typeError & E)]]; rewrite E; cbn [bind andb];
      intuition congruence. }
  split.
  - intros H.
    destruct (checkMixedTaprootAndNonTaprootInputFields h r r action) as [[]|e] eqn:E;
      [|discriminate].
    split.
    + intros Hboth. apply Hm in Hboth. specialize (Hyes Hboth). congruence.
    + apply Hleaf. exact H.
  - intros [Hnot Hall]. rewrite Hno by (rewrite Hm; exact Hnot). simpl.
    now apply Hleaf.
Qed.

(** X15. When the mixed-field check passes, an internal key is present (in
    the new output, else in the old one) and the tree that applies (the new
    one, else the old one, with the new output carrying a key or a tree)
    cannot be rebuilt from its list, [checkTaprootOutputFields] throws what
    [tapTreeFromList] throws, whether or not the output has a script. *)
Theorem checkTaprootOutputFields_bad_tree :
  forall (h : store PsbtOutput.t) (old new : ref) (action : string)
         (key : Uint8Array) (tree : TapTree.t) (e : error),
    checkMixedTaprootAndNonTaprootOutputFields h old new action = Ok tt ->
    PsbtOutput.tapTree (h new) <> None \/ PsbtOutput.tapInternalKey (h new) <> None ->
    orElse (PsbtOutput.tapInternalKey (h new)) (PsbtOutput.tapInternalKey (h old)) = Some key ->
    orElse (PsbtOutput.tapTree (h new)) (PsbtOutput.tapTree (h old)) = Some tree ->
    tapTreeFromList (Some (TapTree.leaves tree)) = Throw e ->
    checkTaprootOutputFields h old new action = Throw e.
Proof.
  intros h old new action key tree e Hmixed Hnew Hkey Htree He.
  unfold checkTaprootOutputFields. rewrite Hmixed. cbn [bind].
  unfold checkTaprootScriptPubkey.
  assert (Hguard : negb (present (PsbtOutput.tapTree (h new)))
                   && negb (present (PsbtOutput.tapInternalKey (h new))) = false).
  { destruct Hnew as [H|H]; apply present_iff in H; rewrite H; simpl;
      [reflexivity|apply andb_false_r]. }
  rewrite Hguard, Hkey, Htree. unfold getTaprootScripPubkey. rewrite He. reflexivity.
Qed.

End FieldChecksMore.

(** An output update whose tree lists two leaves at depth 0 is turned down
    with the no-room error, though the output has no script. *)
Lemma checkTaprootOutputFields_bad_tree_witness :
  checkTaprootOutputFields (prim := samplePrimitives) badTreeStore 0%nat 1%nat "updateOutput"
  = Throw MalformedTapTree.
Proof.
  assert (Hmixed : checkMixedTaprootAndNonTaprootOutputFields (prim := samplePrimitives)
                     badTreeStore 0%nat 1%nat "updateOutput" = Ok tt) by reflexivity.
  apply (checkTaprootOutputFields_bad_tree (prim := samplePrimitives)
           badTreeStore 0%nat 1%nat "updateOutput" (repeat x02 32)
           (TapTree.mk [leafAt 0; leafAt 0]) MalformedTapTree Hmixed).
  - left. simpl. discriminate.
  - reflexivity.
  - reflexivity.
  - reflexivity.
Defined.

(** ** The round trip of any TapTree *)

Section DefaultVersions.
Context {prim : Primitives}.

Lemma isTaptree_withDefaultVersions (tree : PartialTaptree) :
  isTaptree (withDefaultVersions tree) = isTaptree tree.
Proof.
  induction tree as [| l | t0 IH0 t1 IH1]; simpl; try reflexivity.
  now rewrite IH0, IH1.
Qed.

Lemma height_withDefaultVersions (tree : PartialTaptree) :
  height (withDefaultVersions tree) = height tree.
Proof.
  induction tree as [| l | t0 IH0 t1 IH1]; simpl; try reflexivity.
  now rewrite IH0, IH1.
Qed.

Lemma versionOrDefault_twice (v : option Z) :
  versionOrDefault (Some (versionOrDefault v)) = versionOrDefault v.
Proof.
  unfold versionOrDefault. destruct v as [n|].
  - destruct (n =? 0) eqn:E; [|now rewrite E].
    now destruct (LEAF_VERSION_TAPSCRIPT =? 0).
  - now destruct (LEAF_VERSION_TAPSCRIPT =? 0).
Qed.

Lemma slots_withDefaultVersions (tree : PartialTaptree) :
  forall depth,
    map entryOf (slots (withDefaultVersions tree) depth) = map entryOf (slots tree depth).
Proof.
  induction tree as [| l | t0 IH0 t1 IH1]; intros depth;
    cbn [withDefaultVersions slots map]; try reflexivity.
  - unfold entryOf. cbn [fst snd version output]. now rewrite versionOrDefault_twice.
  - now rewrite !map_app, IH0, IH1.
Qed.

Lemma insertAllAt_slots_default (tree : PartialTaptree) :
  isTaptree tree = true ->
  forall depth,
    depth + height tree <= MAX_TAPTREE_DEPTH ->
    insertAllAt depth Undefined (map entryOf (slots tree depth))
    = Ok (withDefaultVersions tree).
Proof.
  induction tree as [| l | t0 IH0 t1 IH1]; intros Ht depth Hh; simpl in *;
    try discriminate.
  - assert (Hd : depth <= MAX_TAPTREE_DEPTH) by lia.
    unfold entryOf. simpl. insert_step Hd. simpl.
    rewrite Z.eqb_refl. reflexivity.
  - apply andb_prop in Ht as [Ht0 Ht1].
    pose proof (height_nonneg t0). pose proof (height_nonneg t1).
    assert (Hdeeper : forall t, Forall (fun leaf => TapLeaf.depth leaf <> depth)
                                       (map entryOf (slots t (depth + 1)))).
    { intros t. apply Forall_map. eapply Forall_impl; [|apply slots_depth].
      simpl. intros. lia. }
    rewrite map_app, insertAllAt_app.
    rewrite (insertAllAt_undefined depth _ ltac:(lia)) with (t0' := withDefaultVersions t0);
      simpl.
    + apply insertAllAt_right; auto; try lia.
      * now rewrite isTaptree_withDefaultVersions.
      * rewrite height_withDefaultVersions. lia.
      * apply IH1; auto; lia.
    + intros E. apply map_eq_nil in E. now apply slots_nonempty in E.
    + apply Hdeeper.
    + apply IH0; auto; lia.
Qed.

(** X16. For every TapTree nested at most 128 levels, whatever versions its
    leaves state, [tapTreeToList] followed by [tapTreeFromList] returns the
    tree with the same structure and scripts in which every leaf states the
    version written to the list (its own, or the default for none or 0); and
    that tree is converted to the same list again. *)
Theorem tapTree_roundtrip_default_versions :
  forall tree,
    isTaptree tree = true ->
    height tree <= MAX_TAPTREE_DEPTH ->
    exists leaves,
      tapTreeToList tree = Ok leaves
      /\ tapTreeFromList (Some leaves) = Ok (withDefaultVersions tree)
      /\ tapTreeToList (withDefaultVersions tree) = Ok leaves.
Proof.
  intros tree Ht Hh. exists (map entryOf (slots tree 0)). split; [|split].
  - unfold tapTreeToList. rewrite Ht. simpl.
    rewrite (_tapTreeToList_complete tree Ht) by lia. reflexivity.
  - rewrite tapTreeFromList_insertAllAt. apply insertAllAt_slots_default; auto.
  - unfold tapTreeToList. rewrite isTaptree_withDefaultVersions, Ht. simpl.
    rewrite (_tapTreeToList_complete (withDefaultVersions tree)).
    + simpl. now rewrite slots_withDefaultVersions.
    + now rewrite isTaptree_withDefaultVersions.
    + rewrite height_withDefaultVersions. lia.
Qed.

End DefaultVersions.

(** A leaf without a version beside a leaf with version 0: both come back
    stating 0xc0. *)
Lemma tapTree_roundtrip_default_versions_witness :
  exists leaves,
    tapTreeToList (prim := samplePrimitives) (Pair leafNoVersion leafVersion0) = Ok leaves
    /\ tapTreeFromList (Some leaves)
       = Ok (Pair (Leaf (mkTapleaf [x51] (Some 192))) (Leaf (mkTapleaf [x51] (Some 192))))
    /\ tapTreeToList (prim := samplePrimitives)
         (Pair (Leaf (mkTapleaf [x51] (Some 192))) (Leaf (mkTapleaf [x51] (Some 192))))
       = Ok leaves.
Proof.
  apply (tapTree_roundtrip_default_versions (prim := samplePrimitives)
           (Pair leafNoVersion leafVersion0)).
  - reflexivity.
  - vm_compute. discriminate.
Defined.
